(** * Tracked objects of a page under reconciliation (src/btree/rec_track.c)

    A shallow embedding of the four entry points of rec_track.c:
    [__wt_rec_track], [__wt_rec_track_ovfl_active],
    [__wt_rec_track_ovfl_reset] and [__wt_rec_discard_track], together with
    the properties of the per-page list of tracked objects they maintain. *)

From stdpp Require Import base decidable list.
From Stdlib Require Import ZArith Lia.

Open Scope Z_scope.

(** ** Data model *)

(** [__wt_pt_type_t]: the kind of a tracked object.  The type is declared in
    wt_internal.h; its values are those the switch of
    [__wt_rec_discard_track] enumerates. *)
Inductive __wt_pt_type_t : Set :=
  | WT_PT_EMPTY
  | WT_PT_BLOCK
  | WT_PT_OVFL
  | WT_PT_OVFL_DISCARD.

#[global] Instance __wt_pt_type_t_eq_dec : EqDecision __wt_pt_type_t.
Proof. solve_decision. Defined.

(** A [const void *] is only ever compared, never dereferenced: it is an
    address, with [NULL] the address 0. *)
Definition NULL : Z := 0.

(** [WT_PAGE_TRACK]: one slot of the array [mod->track].  [addr] and [size]
    are [uint32_t] values; they are stored and compared, never computed with. *)
Record WT_PAGE_TRACK : Set := mk_track {
  type : __wt_pt_type_t;
  ref : Z;
  addr : Z;
  size : Z
}.

#[global] Instance WT_PAGE_TRACK_eq_dec : EqDecision WT_PAGE_TRACK.
Proof. solve_decision. Defined.

(** [WT_PAGE_MODIFY], restricted to the fields rec_track.c uses.  [track] holds
    the slots in use, [mod->track[0 .. track_next-1]], in array order, so that
    the field [track_next] of the C structure is the length of the list;
    [track_entries] is the number of slots allocated.  No function of the file
    reads a slot at or beyond [track_next] before it has written its four
    fields.  The counter [track_next] is a [uint32_t]: the model covers pages
    with fewer than 2^32 tracked objects. *)
Record WT_PAGE_MODIFY : Set := mk_modify {
  track : list WT_PAGE_TRACK;
  track_entries : Z
}.

Definition track_next (mod_ : WT_PAGE_MODIFY) : Z := Z.of_nat (length (track mod_)).

(** [WT_PAGE], restricted to its [modify] field; every function of the file
    dereferences [page->modify] unconditionally. *)
Record WT_PAGE : Set := mk_page { modify : WT_PAGE_MODIFY }.

(** One call of [__wt_block_free]: the address, the size and the value
    returned. *)
Record free_call : Set := mk_free_call {
  fc_addr : Z;
  fc_size : Z;
  fc_ret : Z
}.

#[global] Instance free_call_eq_dec : EqDecision free_call.
Proof. solve_decision. Defined.

(** What a function of the file does when control reaches its end or a
    [return]: it hands a value back, unless an assertion failed on the way. *)
Inductive outcome (A : Type) : Type :=
  | Return (a : A)
  | AssertFailure.
Arguments Return {A} a.
Arguments AssertFailure {A}.

(** Modelled from the spec: the macro [WT_ASSERT] is defined in wt_internal.h,
    of which rec_track.c only has the [#include].  The spec calls a violated
    assertion "a fatal programming-error condition (not a recoverable error)":
    when the asserted expression is false the function does not go on. *)
Definition WT_ASSERT {A : Type} (exp : bool) (k : outcome A) : outcome A :=
  if exp then k else AssertFailure.

(** The slot [__wt_rec_discard_track] leaves behind once the block is freed:
    lines 214-217.  [WT_ADDR_INVALID] is a macro of wt_internal.h and is taken
    as a parameter. *)
Definition discarded_slot (WT_ADDR_INVALID : Z) : WT_PAGE_TRACK :=
  {| type := WT_PT_EMPTY; ref := NULL; addr := WT_ADDR_INVALID; size := 0 |}.

(** The condition of the duplicate check of [__wt_rec_track], lines 46-47. *)
Definition same_tuple (type_ : __wt_pt_type_t) (ref_ addr_ size_ : Z)
    (t : WT_PAGE_TRACK) : bool :=
  bool_decide (type t = type_) && (ref t =? ref_) &&
  (addr t =? addr_) && (size t =? size_).

(** The kinds for which the switch of [__wt_rec_discard_track] breaks out to
    the call of [__wt_block_free]. *)
Definition to_discard (t : WT_PAGE_TRACK) : bool :=
  match type t with
  | WT_PT_BLOCK | WT_PT_OVFL_DISCARD => true
  | WT_PT_EMPTY | WT_PT_OVFL => false
  end.

(** The body of the loop of [__wt_rec_track_ovfl_reset] on one slot. *)
Definition ovfl_reset_slot (t : WT_PAGE_TRACK) : WT_PAGE_TRACK :=
  match type t with
  | WT_PT_OVFL =>
      {| type := WT_PT_OVFL_DISCARD; ref := ref t; addr := addr t; size := size t |}
  | _ => t
  end.

(** The assignment [track->type = WT_PT_OVFL] of line 141. *)
Definition ovfl_activate_slot (t : WT_PAGE_TRACK) : WT_PAGE_TRACK :=
  {| type := WT_PT_OVFL; ref := ref t; addr := addr t; size := size t |}.

(** The loop of [__wt_rec_track_ovfl_active], lines 132-150, over the slots in
    use; [addrp] and [sizep] are the contents of the caller's two cells on
    entry.  The result is the slots afterwards, the value returned and the
    contents of the two cells. *)
Fixpoint ovfl_active_loop (orig_data : Z) (l : list WT_PAGE_TRACK)
    (addrp sizep : Z) : outcome (list WT_PAGE_TRACK * Z * Z * Z) :=
  match l with
  | [] => Return ([], 0, addrp, sizep)
  | t :: rest =>
      if negb (ref t =? orig_data) then
        match ovfl_active_loop orig_data rest addrp sizep with
        | Return (rest', ret, a, s) => Return (t :: rest', ret, a, s)
        | AssertFailure => AssertFailure
        end
      else
        WT_ASSERT (bool_decide (type t = WT_PT_OVFL_DISCARD))
          (Return (ovfl_activate_slot t :: rest, 1, addr t, size t))
  end.

(** [WT_SESSION_IMPL]: the state behind the session handle (the block manager
    and the allocator), and a record of the calls of [__wt_block_free] made so
    far, oldest first.  The record is there to state which blocks were freed;
    no function reads it. *)
Record WT_SESSION_IMPL (World : Type) : Type := mk_session {
  world : World;
  free_calls : list free_call
}.
Arguments mk_session {World} _ _.
Arguments world {World} _.
Arguments free_calls {World} _.

(** Values handed back by [__wt_rec_track] and [__wt_rec_discard_track]: the
    session and the page afterwards, and the [int] returned. *)
Record result (World : Type) : Type := mk_result {
  r_session : WT_SESSION_IMPL World;
  r_page : WT_PAGE;
  r_ret : Z
}.
Arguments mk_result {World} _ _ _.
Arguments r_session {World} _.
Arguments r_page {World} _.
Arguments r_ret {World} _.

(** Values handed back by [__wt_rec_track_ovfl_active]: the session and the
    page afterwards, the [int] returned, and the contents of [*addrp] and
    [*sizep]. *)
Record ovfl_active_result (World : Type) : Type := mk_ovfl_active_result {
  oa_session : WT_SESSION_IMPL World;
  oa_page : WT_PAGE;
  oa_ret : Z;
  oa_addrp : Z;
  oa_sizep : Z
}.
Arguments mk_ovfl_active_result {World} _ _ _ _ _.
Arguments oa_session {World} _.
Arguments oa_page {World} _.
Arguments oa_ret {World} _.
Arguments oa_addrp {World} _.
Arguments oa_sizep {World} _.

(** The state the four functions work on: what [session] and [page] point
    to. *)
Record state (World : Type) : Type := mk_state {
  st_session : WT_SESSION_IMPL World;
  st_page : WT_PAGE
}.
Arguments mk_state {World} _ _.
Arguments st_session {World} _.
Arguments st_page {World} _.

(** A call of one of the four functions by the reconciliation code. *)
Inductive op : Set :=
  | Track (type_ : __wt_pt_type_t) (ref_ addr_ size_ : Z)
  | OvflReset
  | OvflActive (orig_data : Z)
  | DiscardTrack.

Definition is_discard (o : op) : bool :=
  match o with DiscardTrack => true | _ => false end.

Definition is_track (o : op) : bool :=
  match o with Track _ _ _ _ => true | _ => false end.

(** ** Specification vocabulary *)

(** I1 of the spec: no two slots hold the same (type, ref, addr, size). *)
Definition I1 (page : WT_PAGE) : Prop := NoDup (track (modify page)).

(** The slot is not of kind [WT_PT_EMPTY]. *)
Definition non_empty (t : WT_PAGE_TRACK) : bool :=
  negb (bool_decide (type t = WT_PT_EMPTY)).

(** I1 on the slots that still track something. *)
Definition I1_non_empty (page : WT_PAGE) : Prop :=
  NoDup (List.filter non_empty (track (modify page))).

(** What [__wt_rec_discard_track] makes of a slot it gets past. *)
Definition resolved_slot (WT_ADDR_INVALID : Z) (t : WT_PAGE_TRACK)
    : WT_PAGE_TRACK :=
  if to_discard t then discarded_slot WT_ADDR_INVALID else t.

(** The call of [__wt_block_free] for a slot, with the value it returned. *)
Definition free_of (ret : Z) (t : WT_PAGE_TRACK) : free_call :=
  mk_free_call (addr t) (size t) ret.

(** The call that made the loop stop at slot [o], if it stopped at one. *)
Definition failed_free (ret : Z) (o : option WT_PAGE_TRACK) : list free_call :=
  match o with
  | Some t => [free_of ret t]
  | None => []
  end.

(** The call returned 0. *)
Definition succeeded (c : free_call) : bool := fc_ret c =? 0.

(** The call is for the block at ([addr_], [size_]). *)
Definition frees_block (addr_ size_ : Z) (c : free_call) : bool :=
  (fc_addr c =? addr_) && (fc_size c =? size_).

(** The slot tracks the block at ([addr_], [size_]). *)
Definition at_block (addr_ size_ : Z) (t : WT_PAGE_TRACK) : bool :=
  (addr t =? addr_) && (size t =? size_).

(** ** Collaborators to run the functions with *)

(** A block manager and allocator whose calls all succeed. *)
Definition always_ok (w : unit) (_ _ : Z) : unit * Z := (w, 0).

(** A block manager whose calls all fail, with the error 5. *)
Definition always_fails (w : unit) (_ _ : Z) : unit * Z := (w, 5).

(** A block manager and allocator that answers its calls from a script of
    return values, and succeeds once the script is used up. *)
Definition scripted (w : list Z) (_ _ : Z) : list Z * Z :=
  match w with
  | [] => ([], 0)
  | ret :: w' => (w', ret)
  end.

(** A page whose list holds nothing yet, with no slot allocated. *)
Definition empty_page : WT_PAGE := mk_page (mk_modify [] 0).

(** ** Pages and sessions to run the functions on *)

(** The value of [WT_ADDR_INVALID] in the examples. *)
Definition example_addr_invalid : Z := 4294967295.

(** The value of [sizeof(WT_PAGE_TRACK)] in the examples. *)
Definition example_sizeof_track : Z := 24.

(** A session that has made no call yet. *)
Definition fresh_session {World : Type} (w : World) : WT_SESSION_IMPL World :=
  mk_session w [].

(** A script for [scripted]: the second call fails with the error 5. *)
Definition fails_second_call : list Z := [0; 5].

(** Three blocks to discard. *)
Definition three_blocks : WT_PAGE :=
  mk_page (mk_modify
    [ mk_track WT_PT_BLOCK NULL 1 10;
      mk_track WT_PT_BLOCK NULL 2 20;
      mk_track WT_PT_BLOCK NULL 3 30 ] 20).

(** One slot of each kind; the overflow records are those of the cells at 7
    and at 8. *)
Definition one_of_each : WT_PAGE :=
  mk_page (mk_modify
    [ mk_track WT_PT_EMPTY NULL example_addr_invalid 0;
      mk_track WT_PT_BLOCK NULL 1 10;
      mk_track WT_PT_OVFL 7 100 10;
      mk_track WT_PT_OVFL_DISCARD 8 2 20 ] 20).

(** [one_of_each] once both overflow records are active. *)
Definition both_active : WT_PAGE :=
  mk_page (mk_modify
    [ mk_track WT_PT_EMPTY NULL example_addr_invalid 0;
      mk_track WT_PT_BLOCK NULL 1 10;
      mk_track WT_PT_OVFL 7 100 10;
      mk_track WT_PT_OVFL 8 2 20 ] 20).

(** Two slots for the cell at 7, the first one active. *)
Definition active_twice : WT_PAGE :=
  mk_page (mk_modify
    [ mk_track WT_PT_BLOCK NULL 1 10;
      mk_track WT_PT_OVFL 7 100 10;
      mk_track WT_PT_OVFL_DISCARD 7 200 10 ] 20).

(** Two slots for the cell at 7, the first one discarded. *)
Definition discarded_then_active : WT_PAGE :=
  mk_page (mk_modify
    [ mk_track WT_PT_OVFL_DISCARD 7 100 10;
      mk_track WT_PT_OVFL 7 200 10 ] 20).

(** Three passes from an empty page, each ending in one of the functions
    other than [__wt_rec_track]. *)
Definition two_blocks_then_discard : list op :=
  [ Track WT_PT_BLOCK NULL 1 10; Track WT_PT_BLOCK NULL 2 20; DiscardTrack ].

Definition active_and_discarded_then_reset : list op :=
  [ Track WT_PT_OVFL 7 100 10; Track WT_PT_OVFL_DISCARD 7 100 10; OvflReset ].

Definition discarded_and_active_then_activate : list op :=
  [ Track WT_PT_OVFL_DISCARD 7 100 10; Track WT_PT_OVFL 7 100 10; OvflActive 7 ].

(** A script for [scripted]: the first call fails with the error 12. *)
Definition fails_first_call : list Z := [12].

(** Twenty-one blocks, one more than the slots allocated at a time. *)
Definition twenty_one_blocks : list WT_PAGE_TRACK :=
  (fun i => mk_track WT_PT_BLOCK NULL (Z.of_nat i) 512) <$> seq 1 21.

(** Two resolved slots, after the calls of [two_blocks_then_discard]. *)
Definition two_blocks_discarded : state unit :=
  mk_state (mk_session tt [mk_free_call 1 10 0; mk_free_call 2 20 0])
    (mk_page (mk_modify
       [ mk_track WT_PT_EMPTY NULL example_addr_invalid 0;
         mk_track WT_PT_EMPTY NULL example_addr_invalid 0 ] 20)).

(** ** The functions of rec_track.c *)

Section RecTrack.

(** The collaborators the file calls but does not define.  [World] is the
    state of the block manager and of the allocator behind the session;
    [block_free w addr size] and [realloc w bytes_allocated bytes] give the
    state after the call and the [int] returned, 0 for success.
    [WT_ADDR_INVALID] and [sizeof_track] (that is [sizeof(WT_PAGE_TRACK)])
    come from wt_internal.h. *)
Context {World : Type}.
Variable block_free : World -> Z -> Z -> World * Z.
Variable realloc : World -> Z -> Z -> World * Z.
Variable WT_ADDR_INVALID : Z.
Variable sizeof_track : Z.

Definition __wt_block_free (session : WT_SESSION_IMPL World) (addr_ size_ : Z)
    : WT_SESSION_IMPL World * Z :=
  let '(w, ret) := block_free (world session) addr_ size_ in
  (mk_session w (free_calls session ++ [mk_free_call addr_ size_ ret]), ret).

Definition __wt_realloc (session : WT_SESSION_IMPL World)
    (bytes_allocated bytes_to_allocate : Z) : WT_SESSION_IMPL World * Z :=
  let '(w, ret) := realloc (world session) bytes_allocated bytes_to_allocate in
  (mk_session w (free_calls session), ret).

(** [__wt_rec_track]: add an addr/size pair to the page's list of tracked
    objects.  [WT_RET] returns the value of the call when it is not 0.
    [track_entries] is a [uint32_t], as [track_next] is: adding 20 to it wraps
    at 2^32.  The call of [__wt_rec_track_verbose] changes nothing and is left
    out, as are the [WT_VERBOSE] messages of the other functions. *)
Definition __wt_rec_track (session : WT_SESSION_IMPL World) (page : WT_PAGE)
    (type_ : __wt_pt_type_t) (ref_ addr_ size_ : Z) : result World :=
  let mod_ := modify page in
  if existsb (same_tuple type_ ref_ addr_ size_) (track mod_) then
    mk_result session page 0
  else
    let slot := mk_track type_ ref_ addr_ size_ in
    if track_next mod_ =? track_entries mod_ then
      let bytes_allocated := track_entries mod_ * sizeof_track in
      let '(session', ret) :=
        __wt_realloc session bytes_allocated
          ((track_entries mod_ + 20) mod 2 ^ 32 * sizeof_track) in
      if negb (ret =? 0) then mk_result session' page ret
      else
        mk_result session'
          (mk_page (mk_modify (track mod_ ++ [slot])
                      ((track_entries mod_ + 20) mod 2 ^ 32)))
          0
    else
      mk_result session
        (mk_page (mk_modify (track mod_ ++ [slot]) (track_entries mod_))) 0.

(** [__wt_rec_track_ovfl_active]: search for an overflow record and
    reactivate it.  The session is used for diagnostics only. *)
Definition __wt_rec_track_ovfl_active (session : WT_SESSION_IMPL World)
    (page : WT_PAGE) (orig_data : Z) (addrp sizep : Z)
    : outcome (ovfl_active_result World) :=
  if orig_data =? NULL then
    Return (mk_ovfl_active_result session page 0 addrp sizep)
  else
    let mod_ := modify page in
    match ovfl_active_loop orig_data (track mod_) addrp sizep with
    | Return (l', ret, a, s) =>
        Return (mk_ovfl_active_result session
                  (mk_page (mk_modify l' (track_entries mod_))) ret a s)
    | AssertFailure => AssertFailure
    end.

(** [__wt_rec_track_ovfl_reset]: mark all overflow references "discarded".
    The function returns nothing; the session is used for diagnostics
    only. *)
Definition __wt_rec_track_ovfl_reset (session : WT_SESSION_IMPL World)
    (page : WT_PAGE) : WT_SESSION_IMPL World * WT_PAGE :=
  let mod_ := modify page in
  (session,
   mk_page (mk_modify (ovfl_reset_slot <$> track mod_) (track_entries mod_))).

(** The loop of [__wt_rec_discard_track], lines 191-218, over the slots in
    use: the session and the slots afterwards, and the value returned. *)
Fixpoint discard_track_loop (session : WT_SESSION_IMPL World)
    (l : list WT_PAGE_TRACK) : WT_SESSION_IMPL World * list WT_PAGE_TRACK * Z :=
  match l with
  | [] => (session, [], 0)
  | t :: rest =>
      match type t with
      | WT_PT_EMPTY | WT_PT_OVFL =>
          let '(session', rest', ret) := discard_track_loop session rest in
          (session', t :: rest', ret)
      | WT_PT_BLOCK | WT_PT_OVFL_DISCARD =>
          let '(session1, ret) := __wt_block_free session (addr t) (size t) in
          if negb (ret =? 0) then (session1, t :: rest, ret)
          else
            let '(session', rest', ret') := discard_track_loop session1 rest in
            (session', discarded_slot WT_ADDR_INVALID :: rest', ret')
      end
  end.

(** [__wt_rec_discard_track]: resolve the page's list of tracked objects. *)
Definition __wt_rec_discard_track (session : WT_SESSION_IMPL World)
    (page : WT_PAGE) : result World :=
  let mod_ := modify page in
  let '(session', l', ret) := discard_track_loop session (track mod_) in
  mk_result session' (mk_page (mk_modify l' (track_entries mod_))) ret.

(** One call, on the state.  The contents of [*addrp] and [*sizep] are the
    caller's own and are not kept. *)
Definition run_op (o : op) (st : state World) : outcome (state World) :=
  match o with
  | Track type_ ref_ addr_ size_ =>
      let r := __wt_rec_track (st_session st) (st_page st) type_ ref_ addr_ size_ in
      Return (mk_state (r_session r) (r_page r))
  | OvflReset =>
      let '(session', page') :=
        __wt_rec_track_ovfl_reset (st_session st) (st_page st) in
      Return (mk_state session' page')
  | OvflActive orig_data =>
      match __wt_rec_track_ovfl_active (st_session st) (st_page st) orig_data 0 0 with
      | Return r => Return (mk_state (oa_session r) (oa_page r))
      | AssertFailure => AssertFailure
      end
  | DiscardTrack =>
      let r := __wt_rec_discard_track (st_session st) (st_page st) in
      Return (mk_state (r_session r) (r_page r))
  end.

Fixpoint run_ops (os : list op) (st : state World) : outcome (state World) :=
  match os with
  | [] => Return st
  | o :: os' =>
      match run_op o st with
      | Return st' => run_ops os' st'
      | AssertFailure => AssertFailure
      end
  end.

(** The states a page with an empty list of tracked objects can get to. *)
Definition reachable (st : state World) : Prop :=
  exists (session : WT_SESSION_IMPL World) (entries : Z) (os : list op),
    run_ops os (mk_state session (mk_page (mk_modify [] entries))) = Return st.

(** [__wt_rec_track] called [n] times with the same arguments: the state
    after the last call and the values returned, first call first. *)
Fixpoint track_times (n : nat) (session : WT_SESSION_IMPL World) (page : WT_PAGE)
    (type_ : __wt_pt_type_t) (ref_ addr_ size_ : Z)
    : WT_SESSION_IMPL World * WT_PAGE * list Z :=
  match n with
  | O => (session, page, [])
  | S n' =>
      let r := __wt_rec_track session page type_ ref_ addr_ size_ in
      let '(session', page', rets) :=
        track_times n' (r_session r) (r_page r) type_ ref_ addr_ size_ in
      (session', page', r_ret r :: rets)
  end.

(** [__wt_rec_discard_track] called [n] times in a row, whatever it returns:
    the state after the last call. *)
Fixpoint discard_times (n : nat) (session : WT_SESSION_IMPL World) (page : WT_PAGE)
    : WT_SESSION_IMPL World * WT_PAGE :=
  match n with
  | O => (session, page)
  | S n' =>
      let r := __wt_rec_discard_track session page in
      discard_times n' (r_session r) (r_page r)
  end.

(** A list of slots whose first part [done_] has been resolved. *)
Definition resolved_up_to (done_ todo : list WT_PAGE_TRACK) : list WT_PAGE_TRACK :=
  (resolved_slot WT_ADDR_INVALID <$> done_) ++ todo.

(** [__wt_rec_track] called for each slot of [ts] in turn, with the fields of
    the slot as arguments, whatever the calls return: the state after the
    last call and the values returned, first call first. *)
Fixpoint track_all (ts : list WT_PAGE_TRACK) (session : WT_SESSION_IMPL World)
    (page : WT_PAGE) : WT_SESSION_IMPL World * WT_PAGE * list Z :=
  match ts with
  | [] => (session, page, [])
  | t :: ts' =>
      let r := __wt_rec_track session page (type t) (ref t) (addr t) (size t) in
      let '(session', page', rets) := track_all ts' (r_session r) (r_page r) in
      (session', page', r_ret r :: rets)
  end.

(** ** Lists processed up to a position *)

Lemma lookup_fmap_take_drop {A : Type} (f : A -> A) (n : nat) (l : list A) (i : nat) :
  ((f <$> take n l) ++ drop n l) !! i
  = if decide (i < n)%nat then f <$> l !! i else l !! i.
Proof.
  revert l i. induction n as [|n IH]; intros l i.
  - cbn. rewrite drop_0. destruct (decide (i < 0)%nat); [lia | reflexivity].
  - destruct l as [|x l]; [destruct (decide _); reflexivity|].
    destruct i as [|i]; cbn.
    + destruct (decide (0 < S n)%nat); [reflexivity | lia].
    + rewrite IH. destruct (decide (i < n)%nat), (decide (S i < S n)%nat);
        (reflexivity || lia).
Qed.

(** ** Properties of the slot functions *)

Lemma to_discard_type t :
  to_discard t = true <-> type t = WT_PT_BLOCK \/ type t = WT_PT_OVFL_DISCARD.
Proof. unfold to_discard. destruct (type t); intuition congruence. Qed.

Lemma resolved_slot_keeps t :
  to_discard t = false -> resolved_slot WT_ADDR_INVALID t = t.
Proof. unfold resolved_slot. intros ->. reflexivity. Qed.

Lemma resolved_slot_discards t :
  to_discard t = true ->
  resolved_slot WT_ADDR_INVALID t = discarded_slot WT_ADDR_INVALID.
Proof. unfold resolved_slot. intros ->. reflexivity. Qed.

Lemma resolved_slot_not_to_discard t :
  to_discard (resolved_slot WT_ADDR_INVALID t) = false.
Proof.
  unfold resolved_slot. destruct (to_discard t) eqn:E; [reflexivity | exact E].
Qed.

Lemma resolved_slot_idem t :
  resolved_slot WT_ADDR_INVALID (resolved_slot WT_ADDR_INVALID t)
  = resolved_slot WT_ADDR_INVALID t.
Proof. apply resolved_slot_keeps, resolved_slot_not_to_discard. Qed.

(** ** The loop of [__wt_rec_discard_track] *)

(** The two ways through the switch. *)
Lemma discard_track_loop_continue session t rest :
  to_discard t = false ->
  discard_track_loop session (t :: rest)
  = let '(session', rest', ret) := discard_track_loop session rest in
    (session', t :: rest', ret).
Proof.
  unfold to_discard. cbn [discard_track_loop].
  destruct (type t); intros E; (discriminate E || reflexivity).
Qed.

Lemma discard_track_loop_break session t rest :
  to_discard t = true ->
  discard_track_loop session (t :: rest)
  = let '(session1, ret) := __wt_block_free session (addr t) (size t) in
    if negb (ret =? 0) then (session1, t :: rest, ret)
    else
      let '(session', rest', ret') := discard_track_loop session1 rest in
      (session', discarded_slot WT_ADDR_INVALID :: rest', ret').
Proof.
  unfold to_discard. cbn [discard_track_loop].
  destruct (type t); intros E; (discriminate E || reflexivity).
Qed.

(** The loop gets past the first [n] slots: it leaves each of them resolved
    and the others as they were, it has called [__wt_block_free] with success
    for those of the [n] that were to be discarded, in order, and when it
    returns an error, slot [n] is the one whose call failed. *)
Lemma discard_track_loop_char session l :
  exists n : nat,
    (n <= length l)%nat /\
    (discard_track_loop session l).1.2
      = (resolved_slot WT_ADDR_INVALID <$> take n l) ++ drop n l /\
    free_calls (discard_track_loop session l).1.1
      = free_calls session
        ++ (free_of 0 <$> List.filter to_discard (take n l))
        ++ (if (discard_track_loop session l).2 =? 0 then []
            else failed_free (discard_track_loop session l).2 (l !! n)) /\
    ((discard_track_loop session l).2 = 0 -> n = length l) /\
    ((discard_track_loop session l).2 <> 0 ->
       exists t, l !! n = Some t /\ to_discard t = true).
Proof.
  revert session. induction l as [|t rest IH]; intros session.
  - exists 0%nat. cbn. rewrite app_nil_r. repeat split; try lia; congruence.
  - destruct (to_discard t) eqn:Ht.
    + rewrite (discard_track_loop_break _ _ _ Ht). unfold __wt_block_free.
      destruct (block_free (world session) (addr t) (size t)) as [w ret].
      destruct (ret =? 0) eqn:Eret; cbn [negb].
      * apply Z.eqb_eq in Eret; subst ret.
        destruct (IH (mk_session w (free_calls session ++ [mk_free_call (addr t) (size t) 0])))
          as (n & Hn & Hl & Hc & H0 & H1).
        destruct (discard_track_loop _ rest) as [[s' l'] ret'].
        cbn in *. exists (S n). cbn. rewrite Ht, (resolved_slot_discards _ Ht).
        repeat split;
          [lia | congruence | rewrite Hc, <- app_assoc; reflexivity
          | intros; f_equal; auto | exact H1].
      * exists 0%nat. cbn. rewrite Eret. apply Z.eqb_neq in Eret.
        repeat split; [lia | congruence | eauto].
    + rewrite (discard_track_loop_continue _ _ _ Ht).
      destruct (IH session) as (n & Hn & Hl & Hc & H0 & H1).
      destruct (discard_track_loop session rest) as [[s' l'] ret].
      cbn in *. exists (S n). cbn. rewrite Ht, (resolved_slot_keeps _ Ht).
      repeat split;
        [lia | congruence | exact Hc | intros; f_equal; auto | exact H1].
Qed.

(** ** [__wt_rec_discard_track] *)

Lemma discard_track_unfold session page :
  __wt_rec_discard_track session page
  = mk_result (discard_track_loop session (track (modify page))).1.1
      (mk_page (mk_modify (discard_track_loop session (track (modify page))).1.2
                  (track_entries (modify page))))
      (discard_track_loop session (track (modify page))).2.
Proof.
  unfold __wt_rec_discard_track.
  destruct (discard_track_loop session (track (modify page))) as [[s' l'] ret].
  reflexivity.
Qed.

(** When the function returns 0 it has got past every slot. *)
Lemma discard_track_success session page :
  r_ret (__wt_rec_discard_track session page) = 0 ->
  track (modify (r_page (__wt_rec_discard_track session page)))
    = resolved_slot WT_ADDR_INVALID <$> track (modify page) /\
  free_calls (r_session (__wt_rec_discard_track session page))
    = free_calls session
      ++ (free_of 0 <$> List.filter to_discard (track (modify page))).
Proof.
  rewrite discard_track_unfold. cbn. intros Hret.
  destruct (discard_track_loop_char session (track (modify page)))
    as (n & Hn & Hl & Hc & H0 & _).
  specialize (H0 Hret). subst n.
  rewrite Hret in Hc. cbn in Hc.
  rewrite firstn_all, skipn_all, !app_nil_r in *. split; assumption.
Qed.

(** When it returns an error, it stopped at the slot whose call failed. *)
Lemma discard_track_failure session page :
  r_ret (__wt_rec_discard_track session page) <> 0 ->
  exists pre t post,
    track (modify page) = pre ++ t :: post /\
    to_discard t = true /\
    track (modify (r_page (__wt_rec_discard_track session page)))
      = (resolved_slot WT_ADDR_INVALID <$> pre) ++ t :: post /\
    free_calls (r_session (__wt_rec_discard_track session page))
      = free_calls session
        ++ (free_of 0 <$> List.filter to_discard pre)
        ++ [free_of (r_ret (__wt_rec_discard_track session page)) t].
Proof.
  rewrite discard_track_unfold. cbn. intros Hret.
  destruct (discard_track_loop_char session (track (modify page)))
    as (n & Hn & Hl & Hc & _ & H1).
  destruct (H1 Hret) as (t & Hlook & Ht).
  apply Z.eqb_neq in Hret. rewrite Hret, Hlook in Hc. cbn in Hc.
  exists (take n (track (modify page))), t, (drop (S n) (track (modify page))).
  rewrite <- (drop_S _ _ _ Hlook).
  repeat split; [symmetry; apply take_drop | assumption..].
Qed.

(** A slot that is not to be discarded is left as it is, whatever the
    function returns. *)
Lemma discard_track_keeps session page i t :
  track (modify page) !! i = Some t ->
  to_discard t = false ->
  track (modify (r_page (__wt_rec_discard_track session page))) !! i = Some t.
Proof.
  rewrite discard_track_unfold. cbn. intros Hlook Ht.
  destruct (discard_track_loop_char session (track (modify page)))
    as (n & Hn & Hl & _).
  rewrite Hl, lookup_fmap_take_drop, Hlook. cbn.
  rewrite (resolved_slot_keeps _ Ht). destruct (decide _); reflexivity.
Qed.

(** A slot to be discarded is reset, unless the function returned an error at
    or before it. *)
Lemma discard_track_discards session page i t :
  track (modify page) !! i = Some t ->
  to_discard t = true ->
  track (modify (r_page (__wt_rec_discard_track session page))) !! i
    = Some (discarded_slot WT_ADDR_INVALID) \/
  (r_ret (__wt_rec_discard_track session page) <> 0 /\
   track (modify (r_page (__wt_rec_discard_track session page))) !! i = Some t).
Proof.
  rewrite discard_track_unfold. cbn. intros Hlook Ht.
  destruct (discard_track_loop_char session (track (modify page)))
    as (n & Hn & Hl & _ & H0 & _).
  rewrite Hl, lookup_fmap_take_drop, Hlook. cbn.
  destruct (decide (i < n)%nat) as [Hlt|Hge].
  - left. f_equal. apply resolved_slot_discards, Ht.
  - right. split; [|reflexivity]. intros Hret. specialize (H0 Hret).
    apply lookup_lt_Some in Hlook. lia.
Qed.

(** Every call of [__wt_block_free] the function makes is for a slot that was
    to be discarded. *)
Lemma discard_track_calls session page :
  exists calls,
    free_calls (r_session (__wt_rec_discard_track session page))
      = free_calls session ++ calls /\
    forall c, c ∈ calls ->
      exists t, t ∈ track (modify page) /\ to_discard t = true /\
                fc_addr c = addr t /\ fc_size c = size t.
Proof.
  rewrite discard_track_unfold. cbn.
  destruct (discard_track_loop_char session (track (modify page)))
    as (n & Hn & _ & Hc & _ & H1).
  eexists. split; [exact Hc|].
  intros c Hin. apply elem_of_app in Hin as [Hin|Hin].
  - apply list_elem_of_fmap in Hin as (t & -> & Hin).
    apply list_elem_of_In, filter_In in Hin as [Hin Ht].
    exists t. repeat split; try assumption.
    apply list_elem_of_In in Hin. exact (subseteq_take _ _ _ Hin).
  - destruct (_ =? 0) eqn:Eret; [inversion Hin|].
    apply Z.eqb_neq in Eret. destruct (H1 Eret) as (t & Hlook & Ht).
    rewrite Hlook in Hin. cbn in Hin. apply list_elem_of_singleton in Hin as ->.
    exists t. repeat split; try assumption.
    eapply list_elem_of_lookup_2; eassumption.
Qed.

(** With a block manager whose calls all succeed, so does the function. *)
Lemma discard_track_loop_returns_0 session l :
  (forall w addr_ size_, (block_free w addr_ size_).2 = 0) ->
  (discard_track_loop session l).2 = 0.
Proof.
  intros Hok. revert session. induction l as [|t rest IH]; intros session.
  - reflexivity.
  - destruct (to_discard t) eqn:Ht.
    + rewrite (discard_track_loop_break _ _ _ Ht). unfold __wt_block_free.
      pose proof (Hok (world session) (addr t) (size t)) as Hret.
      destruct (block_free (world session) (addr t) (size t)) as [w ret].
      cbn in Hret. subst ret. cbn [negb Z.eqb].
      specialize (IH (mk_session w (free_calls session ++ [mk_free_call (addr t) (size t) 0]))).
      destruct (discard_track_loop _ rest) as [[s' l'] ret']. exact IH.
    + rewrite (discard_track_loop_continue _ _ _ Ht).
      specialize (IH session).
      destruct (discard_track_loop session rest) as [[s' l'] ret]. exact IH.
Qed.

Lemma discard_track_returns_0 session page :
  (forall w addr_ size_, (block_free w addr_ size_).2 = 0) ->
  r_ret (__wt_rec_discard_track session page) = 0.
Proof.
  intros Hok. rewrite discard_track_unfold. cbn.
  apply discard_track_loop_returns_0, Hok.
Qed.

(** C1.  [__wt_rec_discard_track] treats each slot by its kind.  A slot of
    kind [WT_PT_EMPTY] or [WT_PT_OVFL] is left exactly as it is, whatever the
    function returns, and no call of [__wt_block_free] is made for it.  When
    the function returns 0, that is when no call of [__wt_block_free] failed,
    every slot of kind [WT_PT_BLOCK] or [WT_PT_OVFL_DISCARD] has been reset to
    ([WT_PT_EMPTY], [NULL], [WT_ADDR_INVALID], 0), and the calls the function
    made are exactly one successful [__wt_block_free (addr, size)] for each
    such slot, in the order of the list.  With a block manager whose calls
    all succeed the function does return 0. *)
Theorem discard_track_by_kind session page :
  (forall i t,
     track (modify page) !! i = Some t ->
     type t = WT_PT_EMPTY \/ type t = WT_PT_OVFL ->
     track (modify (r_page (__wt_rec_discard_track session page))) !! i = Some t) /\
  (r_ret (__wt_rec_discard_track session page) = 0 ->
   (forall i t,
      track (modify page) !! i = Some t ->
      type t = WT_PT_BLOCK \/ type t = WT_PT_OVFL_DISCARD ->
      track (modify (r_page (__wt_rec_discard_track session page))) !! i
      = Some {| type := WT_PT_EMPTY; ref := NULL;
                addr := WT_ADDR_INVALID; size := 0 |}) /\
   length (track (modify (r_page (__wt_rec_discard_track session page))))
   = length (track (modify page)) /\
   free_calls (r_session (__wt_rec_discard_track session page))
   = free_calls session
     ++ ((fun t => mk_free_call (addr t) (size t) 0)
           <$> List.filter to_discard (track (modify page)))) /\
  ((forall w addr_ size_, (block_free w addr_ size_).2 = 0) ->
   r_ret (__wt_rec_discard_track session page) = 0).
Proof.
  split; [|split].
  - intros i t Hlook Hty. apply discard_track_keeps; [assumption|].
    unfold to_discard. destruct Hty as [-> | ->]; reflexivity.
  - intros Hret. destruct (discard_track_success _ _ Hret) as [Hl Hc].
    repeat split.
    + intros i t Hlook Hty. rewrite Hl, list_lookup_fmap, Hlook. cbn.
      f_equal. apply resolved_slot_discards, to_discard_type, Hty.
    + rewrite Hl. apply length_fmap.
    + exact Hc.
  - apply discard_track_returns_0.
Qed.

(** ** Calling [__wt_rec_discard_track] again *)

Lemma app_split_at_first {A : Type} (P : A -> bool) (xs ys pre post : list A) (t : A) :
  Forall (fun x => P x = false) xs ->
  P t = true ->
  xs ++ ys = pre ++ t :: post ->
  exists pre', pre = xs ++ pre' /\ ys = pre' ++ t :: post.
Proof.
  intros Hxs Ht. revert pre. induction Hxs as [|x xs Hx _ IH]; intros pre Heq.
  - exists pre. split; [reflexivity | exact Heq].
  - destruct pre as [|p pre]; cbn in Heq; injection Heq as -> Heq.
    + congruence.
    + destruct (IH _ Heq) as (pre' & -> & ->). exists pre'. split; reflexivity.
Qed.

Lemma resolved_not_to_discard (l : list WT_PAGE_TRACK) :
  Forall (fun x => to_discard x = false) (resolved_slot WT_ADDR_INVALID <$> l).
Proof.
  apply Forall_fmap, Forall_forall. intros x _. apply resolved_slot_not_to_discard.
Qed.

Lemma filter_to_discard_resolved (l : list WT_PAGE_TRACK) :
  List.filter to_discard (resolved_slot WT_ADDR_INVALID <$> l) = [].
Proof.
  induction l as [|x l IH]; [reflexivity|]. cbn.
  rewrite resolved_slot_not_to_discard. exact IH.
Qed.

Lemma resolved_fmap_idem (l : list WT_PAGE_TRACK) :
  resolved_slot WT_ADDR_INVALID <$> (resolved_slot WT_ADDR_INVALID <$> l)
  = resolved_slot WT_ADDR_INVALID <$> l.
Proof.
  rewrite <- list_fmap_compose. apply list_fmap_ext.
  intros i x _. apply resolved_slot_idem.
Qed.

Lemma filter_succeeded_free_of_0 (l : list WT_PAGE_TRACK) :
  List.filter succeeded (free_of 0 <$> l) = free_of 0 <$> l.
Proof. induction l as [|x l IH]; [reflexivity|]. cbn. f_equal. exact IH. Qed.

(** One call on a list whose first part is resolved: afterwards a longer
    first part is resolved, and the calls that succeeded are those for the
    slots to be discarded that were added to it. *)
Lemma discard_track_resolves_more session done_ todo entries :
  exists more todo' calls,
    todo = more ++ todo' /\
    track (modify (r_page (__wt_rec_discard_track session
             (mk_page (mk_modify (resolved_up_to done_ todo) entries)))))
      = resolved_up_to (done_ ++ more) todo' /\
    track_entries (modify (r_page (__wt_rec_discard_track session
             (mk_page (mk_modify (resolved_up_to done_ todo) entries)))))
      = entries /\
    free_calls (r_session (__wt_rec_discard_track session
             (mk_page (mk_modify (resolved_up_to done_ todo) entries))))
      = free_calls session ++ calls /\
    List.filter succeeded calls = free_of 0 <$> List.filter to_discard more /\
    (fun c => (fc_addr c, fc_size c)) <$> calls
      `prefix_of` (fun t => (addr t, size t)) <$> List.filter to_discard todo.
Proof.
  set (page := mk_page (mk_modify (resolved_up_to done_ todo) entries)).
  destruct (Z.eq_dec (r_ret (__wt_rec_discard_track session page)) 0) as [Hret|Hret].
  - destruct (discard_track_success _ _ Hret) as [Hl Hc].
    exists todo, [], (free_of 0 <$> List.filter to_discard todo).
    rewrite discard_track_unfold in *. cbn in *.
    unfold resolved_up_to in *.
    rewrite Hl, Hc, fmap_app, resolved_fmap_idem, List.filter_app,
      filter_to_discard_resolved, !app_nil_r, fmap_app, filter_succeeded_free_of_0.
    repeat split. rewrite <- list_fmap_compose. reflexivity.
  - destruct (discard_track_failure _ _ Hret) as (pre & t & post & Heq & Ht & Hl & Hc).
    cbn in Heq. unfold resolved_up_to in Heq.
    destruct (app_split_at_first to_discard _ _ _ _ _
                (resolved_not_to_discard done_) Ht Heq) as (more & -> & ->).
    exists more, (t :: post), ((free_of 0 <$> List.filter to_discard more)
                    ++ [free_of (r_ret (__wt_rec_discard_track session page)) t]).
    rewrite discard_track_unfold in *. cbn in *. unfold resolved_up_to in *.
    rewrite Hl, Hc, !fmap_app, resolved_fmap_idem, !List.filter_app,
      filter_to_discard_resolved, filter_succeeded_free_of_0, <- app_assoc.
    cbn. unfold succeeded at 1. cbn. rewrite (proj2 (Z.eqb_neq _ _) Hret), Ht.
    rewrite app_nil_r, fmap_app. cbn.
    repeat split.
    exists ((fun t => (addr t, size t)) <$> List.filter to_discard post).
    rewrite <- list_fmap_compose, <- app_assoc. reflexivity.
Qed.

(** Over any number of calls in a row, the calls of [__wt_block_free] that
    succeeded are for the first [k] slots to be discarded, one call for each,
    in order. *)
Lemma discard_times_resolved n : forall session done_ todo entries,
  exists more todo' calls,
    todo = more ++ todo' /\
    (discard_times n session
       (mk_page (mk_modify (resolved_up_to done_ todo) entries))).2
      = mk_page (mk_modify (resolved_up_to (done_ ++ more) todo') entries) /\
    free_calls (discard_times n session
       (mk_page (mk_modify (resolved_up_to done_ todo) entries))).1
      = free_calls session ++ calls /\
    List.filter succeeded calls = free_of 0 <$> List.filter to_discard more.
Proof.
  induction n as [|n IH]; intros session done_ todo entries.
  - exists [], todo, []. cbn. rewrite !app_nil_r. repeat split.
  - cbn [discard_times].
    destruct (discard_track_resolves_more session done_ todo entries)
      as (more1 & todo1 & calls1 & -> & Hl & He & Hc & Hs & _).
    destruct (r_page (__wt_rec_discard_track session _)) as [[l1 e1]].
    cbn in Hl, He. subst l1 e1.
    destruct (IH (r_session (__wt_rec_discard_track session
        (mk_page (mk_modify (resolved_up_to done_ (more1 ++ todo1)) entries))))
        (done_ ++ more1) todo1 entries)
      as (more2 & todo2 & calls2 & -> & Hp & Hc2 & Hs2).
    exists (more1 ++ more2), todo2, (calls1 ++ calls2).
    rewrite Hp, Hc2, Hc, !List.filter_app, Hs, Hs2, fmap_app, <- !app_assoc.
    repeat split.
Qed.

(** The loop goes over slots that are resolved without a call. *)
Lemma discard_track_loop_resolved session done_ todo :
  discard_track_loop session (resolved_up_to done_ todo)
  = let '(session', todo', ret) := discard_track_loop session todo in
    (session', resolved_up_to done_ todo', ret).
Proof.
  unfold resolved_up_to. induction done_ as [|x done_ IH]; cbn [fmap list_fmap app].
  - destruct (discard_track_loop session todo) as [[s' l'] ret]. reflexivity.
  - rewrite discard_track_loop_continue by apply resolved_slot_not_to_discard.
    change (list_fmap _ _ (resolved_slot WT_ADDR_INVALID) done_)
      with (resolved_slot WT_ADDR_INVALID <$> done_).
    rewrite IH. destruct (discard_track_loop session todo) as [[s' l'] ret].
    reflexivity.
Qed.

(** The calls the loop makes are for the slots to be discarded, in order,
    up to the one it stops at. *)
Lemma discard_track_loop_calls session l :
  exists calls,
    free_calls (discard_track_loop session l).1.1 = free_calls session ++ calls /\
    (fun c => (fc_addr c, fc_size c)) <$> calls
      `prefix_of` (fun t => (addr t, size t)) <$> List.filter to_discard l.
Proof.
  destruct (discard_track_resolves_more session [] l 0)
    as (more & todo' & calls & _ & _ & _ & Hc & _ & Hpre).
  rewrite discard_track_unfold in Hc. cbn in Hc.
  exists calls. split; assumption.
Qed.

Lemma discard_times_succeeds_once n session page :
  exists (k : nat) calls,
    free_calls (discard_times n session page).1 = free_calls session ++ calls /\
    List.filter succeeded calls
      = free_of 0 <$> take k (List.filter to_discard (track (modify page))).
Proof.
  destruct page as [[l entries]].
  destruct (discard_times_resolved n session [] l entries)
    as (more & todo' & calls & -> & _ & Hc & Hs).
  exists (length (List.filter to_discard more)), calls.
  split; [exact Hc|]. cbn.
  rewrite Hs, List.filter_app, take_app_length. reflexivity.
Qed.

(** C2, amended.  When a call of [__wt_block_free] fails,
    [__wt_rec_discard_track] returns that error at once: the list is
    [pre ++ t :: post] with [t] the slot whose call failed; the slots of [pre]
    are resolved (those freed are reset), [t] and [post] are as they were, and
    the calls made are the successful ones for [pre] followed by the failed
    one for [t].  The next call of [__wt_rec_discard_track] calls
    [__wt_block_free] only for slots of [t :: post], in order, the first of
    them being [t] again.  Over the call and any number of further calls, the
    calls of [__wt_block_free] that succeed are one for each of the first [k]
    slots to be discarded: no slot is freed with success twice. *)
Theorem discard_track_error_and_retry session page :
  r_ret (__wt_rec_discard_track session page) <> 0 ->
  exists pre t post,
    track (modify page) = pre ++ t :: post /\
    (type t = WT_PT_BLOCK \/ type t = WT_PT_OVFL_DISCARD) /\
    track (modify (r_page (__wt_rec_discard_track session page)))
      = (resolved_slot WT_ADDR_INVALID <$> pre) ++ t :: post /\
    free_calls (r_session (__wt_rec_discard_track session page))
      = free_calls session
        ++ (free_of 0 <$> List.filter to_discard pre)
        ++ [free_of (r_ret (__wt_rec_discard_track session page)) t] /\
    (exists ret calls,
       free_calls (r_session
          (__wt_rec_discard_track
             (r_session (__wt_rec_discard_track session page))
             (r_page (__wt_rec_discard_track session page))))
         = free_calls (r_session (__wt_rec_discard_track session page))
           ++ free_of ret t :: calls /\
       (fun c => (fc_addr c, fc_size c)) <$> calls
         `prefix_of` (fun t => (addr t, size t)) <$> List.filter to_discard post) /\
    (forall n, exists (k : nat) calls,
       free_calls (discard_times (S n) session page).1 = free_calls session ++ calls /\
       List.filter succeeded calls
         = free_of 0 <$> take k (List.filter to_discard (track (modify page)))).
Proof.
  intros Hret.
  destruct (discard_track_failure _ _ Hret) as (pre & t & post & Heq & Ht & Hl & Hc).
  exists pre, t, post.
  split; [exact Heq|]. split; [apply to_discard_type, Ht|].
  split; [exact Hl|]. split; [exact Hc|]. split.
  - set (session1 := r_session (__wt_rec_discard_track session page)) in *.
    rewrite (discard_track_unfold session1). cbn [r_session r_page modify track].
    rewrite Hl. fold (resolved_up_to pre (t :: post)).
    rewrite discard_track_loop_resolved, (discard_track_loop_break _ _ _ Ht).
    unfold __wt_block_free.
    destruct (block_free (world session1) (addr t) (size t)) as [w ret].
    exists ret. destruct (ret =? 0); cbn [negb].
    + destruct (discard_track_loop_calls
                  (mk_session w (free_calls session1 ++ [mk_free_call (addr t) (size t) ret]))
                  post) as (calls & Hc2 & Hpre).
      destruct (discard_track_loop _ post) as [[s' l'] ret'].
      cbn in Hc2 |- *. exists calls. rewrite Hc2, <- app_assoc. split; [reflexivity | exact Hpre].
    + exists []. cbn. split; [reflexivity | apply prefix_nil].
  - intros n. apply discard_times_succeeds_once.
Qed.

(** ** [__wt_rec_track] *)

Lemma same_tuple_spec type_ ref_ addr_ size_ t :
  same_tuple type_ ref_ addr_ size_ t = true <-> t = mk_track type_ ref_ addr_ size_.
Proof.
  unfold same_tuple. destruct t as [ty r a s]. cbn.
  rewrite !andb_true_iff, bool_decide_eq_true, !Z.eqb_eq.
  split; [intros [[[-> ->] ->] ->]; reflexivity | intros [= -> -> -> ->]; auto].
Qed.

Lemma existsb_same_tuple type_ ref_ addr_ size_ l :
  existsb (same_tuple type_ ref_ addr_ size_) l = true
  <-> mk_track type_ ref_ addr_ size_ ∈ l.
Proof.
  rewrite existsb_exists, list_elem_of_In. split.
  - intros (t & Hin & Hsame). apply same_tuple_spec in Hsame. congruence.
  - intros Hin. eexists. split; [exact Hin | apply same_tuple_spec; reflexivity].
Qed.

(** The duplicate check finds the tuple: nothing is done. *)
Lemma rec_track_present session page type_ ref_ addr_ size_ :
  mk_track type_ ref_ addr_ size_ ∈ track (modify page) ->
  __wt_rec_track session page type_ ref_ addr_ size_ = mk_result session page 0.
Proof.
  intros Hin. unfold __wt_rec_track.
  rewrite (proj2 (existsb_same_tuple _ _ _ _ _) Hin). reflexivity.
Qed.

(** The duplicate check does not find the tuple: the slot is appended, or the
    allocation fails and the page is left as it is. *)
Lemma rec_track_absent session page type_ ref_ addr_ size_ :
  mk_track type_ ref_ addr_ size_ ∉ track (modify page) ->
  (r_ret (__wt_rec_track session page type_ ref_ addr_ size_) = 0 /\
   track (modify (r_page (__wt_rec_track session page type_ ref_ addr_ size_)))
     = track (modify page) ++ [mk_track type_ ref_ addr_ size_]) \/
  (r_ret (__wt_rec_track session page type_ ref_ addr_ size_) <> 0 /\
   r_page (__wt_rec_track session page type_ ref_ addr_ size_) = page).
Proof.
  intros Hnin. unfold __wt_rec_track.
  destruct (existsb _ _) eqn:Edup.
  { apply existsb_same_tuple in Edup. contradiction. }
  destruct (track_next (modify page) =? track_entries (modify page)).
  - unfold __wt_realloc. destruct (realloc _ _ _) as [w ret].
    destruct (ret =? 0) eqn:Eret; cbn.
    + left. split; reflexivity.
    + right. apply Z.eqb_neq in Eret. split; [assumption | reflexivity].
  - left. split; reflexivity.
Qed.

Lemma track_times_present n session page type_ ref_ addr_ size_ :
  mk_track type_ ref_ addr_ size_ ∈ track (modify page) ->
  (track_times n session page type_ ref_ addr_ size_).1 = (session, page).
Proof.
  intros Hin. induction n as [|n IH]; [reflexivity|].
  cbn [track_times]. rewrite (rec_track_present _ _ _ _ _ _ Hin). cbn.
  destruct (track_times n session page type_ ref_ addr_ size_) as [[s' p'] rets].
  cbn in IH |- *. exact IH.
Qed.

Lemma count_occ_one_elem_of (l : list WT_PAGE_TRACK) t :
  t ∈ l -> (count_occ WT_PAGE_TRACK_eq_dec l t <= 1)%nat ->
  count_occ WT_PAGE_TRACK_eq_dec l t = 1%nat.
Proof.
  intros Hin Hle. apply list_elem_of_In in Hin.
  apply (count_occ_In WT_PAGE_TRACK_eq_dec) in Hin. lia.
Qed.

Lemma rec_track_succeeds session page type_ ref_ addr_ size_ :
  (forall w bytes_allocated bytes, (realloc w bytes_allocated bytes).2 = 0) ->
  r_ret (__wt_rec_track session page type_ ref_ addr_ size_) = 0.
Proof.
  intros Hok. unfold __wt_rec_track. destruct (existsb _ _); [reflexivity|].
  destruct (_ =? _); [|reflexivity]. unfold __wt_realloc.
  pose proof (Hok (world session) (track_entries (modify page) * sizeof_track)
                ((track_entries (modify page) + 20) mod 2 ^ 32 * sizeof_track)) as Hret.
  destruct (realloc _ _ _) as [w ret]. cbn in Hret. subst ret. reflexivity.
Qed.

(** The call returns 0 unless the array had to grow and the allocator
    failed. *)
Lemma rec_track_returns_0_iff session page type_ ref_ addr_ size_ :
  r_ret (__wt_rec_track session page type_ ref_ addr_ size_) = 0 <->
  (mk_track type_ ref_ addr_ size_ ∈ track (modify page)) \/
  track_next (modify page) <> track_entries (modify page) \/
  (realloc (world session)
     (track_entries (modify page) * sizeof_track)
     ((track_entries (modify page) + 20) mod 2 ^ 32 * sizeof_track)).2 = 0.
Proof.
  clear block_free WT_ADDR_INVALID.
  unfold __wt_rec_track. destruct (existsb _ _) eqn:Edup.
  { apply existsb_same_tuple in Edup. cbn. tauto. }
  assert (Hnin : mk_track type_ ref_ addr_ size_ ∉ track (modify page)).
  { intros Hin. apply existsb_same_tuple in Hin. congruence. }
  destruct (track_next (modify page) =? track_entries (modify page)) eqn:Efull.
  - apply Z.eqb_eq in Efull. unfold __wt_realloc.
    destruct (realloc _ _ _) as [w ret]. cbn [snd].
    destruct (ret =? 0) eqn:Eret; cbn.
    + apply Z.eqb_eq in Eret. tauto.
    + apply Z.eqb_neq in Eret. tauto.
  - apply Z.eqb_neq in Efull. cbn. tauto.
Qed.

Lemma track_times_count n : forall session page type_ ref_ addr_ size_,
  (count_occ WT_PAGE_TRACK_eq_dec (track (modify page))
     (mk_track type_ ref_ addr_ size_) <= 1)%nat ->
  0 ∈ (track_times n session page type_ ref_ addr_ size_).2 ->
  count_occ WT_PAGE_TRACK_eq_dec
    (track (modify (track_times n session page type_ ref_ addr_ size_).1.2))
    (mk_track type_ ref_ addr_ size_) = 1%nat.
Proof.
  intros session page type_ ref_ addr_ size_. revert session page.
  induction n as [|n IH]; intros session page Hle Hok.
  - cbn in Hok. inversion Hok.
  - destruct (decide (mk_track type_ ref_ addr_ size_ ∈ track (modify page)))
      as [Hin|Hnin].
    + rewrite (track_times_present _ _ _ _ _ _ _ Hin). cbn.
      apply count_occ_one_elem_of; assumption.
    + cbn [track_times] in Hok |- *.
      set (r := __wt_rec_track session page type_ ref_ addr_ size_) in *.
      destruct (rec_track_absent session page type_ ref_ addr_ size_ Hnin)
        as [[Hret Hl]|[Hret Hp]]; fold r in Hret, Hl || fold r in Hret, Hp.
      * assert (Hin : mk_track type_ ref_ addr_ size_ ∈ track (modify (r_page r))).
        { rewrite Hl. apply elem_of_app. right. apply list_elem_of_singleton. reflexivity. }
        pose proof (track_times_present n (r_session r) _ _ _ _ _ Hin) as Hsame.
        destruct (track_times n (r_session r) (r_page r) type_ ref_ addr_ size_)
          as [[s' p'] rets].
        cbn in Hsame |- *. injection Hsame as _ ->.
        rewrite Hl, count_occ_app, (count_occ_cons_eq WT_PAGE_TRACK_eq_dec [] eq_refl).
        rewrite list_elem_of_In, (count_occ_not_In WT_PAGE_TRACK_eq_dec) in Hnin.
        rewrite Hnin. reflexivity.
      * specialize (IH (r_session r) (r_page r)). rewrite Hp in IH.
        rewrite Hp in Hok |- *.
        destruct (track_times n (r_session r) page type_ ref_ addr_ size_)
          as [[s' p'] rets].
        cbn in IH, Hok |- *. apply IH; [assumption|].
        apply elem_of_cons in Hok as [Hok|Hok]; [congruence | assumption].
Qed.

(** With an allocator that does not fail, every call returns 0. *)
Lemma track_times_succeeds n : forall session page type_ ref_ addr_ size_,
  (forall w bytes_allocated bytes, (realloc w bytes_allocated bytes).2 = 0) ->
  (track_times n session page type_ ref_ addr_ size_).2 = replicate n 0.
Proof.
  induction n as [|n IH]; intros session page type_ ref_ addr_ size_ Hok.
  - reflexivity.
  - cbn [track_times].
    specialize (IH (r_session (__wt_rec_track session page type_ ref_ addr_ size_))
                  (r_page (__wt_rec_track session page type_ ref_ addr_ size_))
                  type_ ref_ addr_ size_ Hok).
    destruct (track_times n _ _ type_ ref_ addr_ size_) as [[s' p'] rets].
    cbn in IH |- *. rewrite IH, (rec_track_succeeds _ _ _ _ _ _ Hok). reflexivity.
Qed.

(** C3.  [__wt_rec_track] does nothing when the tuple is already tracked: it
    returns 0 and leaves the session and the page (the list, slot for slot,
    and its allocated size) as they are.  And when the same tuple is
    registered [n] times on a list that holds it at most once, with at least
    one of the calls returning 0 (so [n >= 1], and the allocation, if one was
    needed, went through), the list holds the tuple exactly once.  A call
    returns 0 unless it found no duplicate, no allocated slot was free and
    [__wt_realloc] failed; so with an allocator that does not fail, [n >= 1]
    calls all return 0 and leave the tuple in exactly one slot. *)
Theorem rec_track_idempotent session page type_ ref_ addr_ size_ :
  (mk_track type_ ref_ addr_ size_ ∈ track (modify page) ->
   __wt_rec_track session page type_ ref_ addr_ size_ = mk_result session page 0) /\
  (forall n : nat,
     (count_occ WT_PAGE_TRACK_eq_dec (track (modify page))
        (mk_track type_ ref_ addr_ size_) <= 1)%nat ->
     0 ∈ (track_times n session page type_ ref_ addr_ size_).2 ->
     count_occ WT_PAGE_TRACK_eq_dec
       (track (modify (track_times n session page type_ ref_ addr_ size_).1.2))
       (mk_track type_ ref_ addr_ size_) = 1%nat) /\
  (r_ret (__wt_rec_track session page type_ ref_ addr_ size_) = 0 <->
   (mk_track type_ ref_ addr_ size_ ∈ track (modify page)) \/
   track_next (modify page) <> track_entries (modify page) \/
   (realloc (world session)
      (track_entries (modify page) * sizeof_track)
      ((track_entries (modify page) + 20) mod 2 ^ 32 * sizeof_track)).2 = 0) /\
  ((forall w bytes_allocated bytes, (realloc w bytes_allocated bytes).2 = 0) ->
   forall n : nat,
     (1 <= n)%nat ->
     (count_occ WT_PAGE_TRACK_eq_dec (track (modify page))
        (mk_track type_ ref_ addr_ size_) <= 1)%nat ->
     (track_times n session page type_ ref_ addr_ size_).2 = replicate n 0 /\
     count_occ WT_PAGE_TRACK_eq_dec
       (track (modify (track_times n session page type_ ref_ addr_ size_).1.2))
       (mk_track type_ ref_ addr_ size_) = 1%nat).
Proof.
  split; [apply rec_track_present|].
  split; [intros n; apply track_times_count|].
  split; [apply rec_track_returns_0_iff|].
  intros Hok n Hn Hle.
  pose proof (track_times_succeeds n session page type_ ref_ addr_ size_ Hok) as Hrets.
  split; [exact Hrets|].
  apply track_times_count; [exact Hle|].
  rewrite Hrets. destruct n as [|n]; [lia | left].
Qed.

(** ** [__wt_rec_track_ovfl_reset] *)

(** C4.  [__wt_rec_track_ovfl_reset] sets the kind of every slot of kind
    [WT_PT_OVFL] to [WT_PT_OVFL_DISCARD] and keeps its other fields; it leaves
    every slot of another kind as it is; it makes no call of
    [__wt_block_free] (the session is as it was); the list keeps its length
    and its allocated size, and no slot moves. *)
Theorem ovfl_reset_flips_active session page :
  (__wt_rec_track_ovfl_reset session page).1 = session /\
  free_calls (__wt_rec_track_ovfl_reset session page).1 = free_calls session /\
  length (track (modify (__wt_rec_track_ovfl_reset session page).2))
    = length (track (modify page)) /\
  track_entries (modify (__wt_rec_track_ovfl_reset session page).2)
    = track_entries (modify page) /\
  forall i t,
    track (modify page) !! i = Some t ->
    track (modify (__wt_rec_track_ovfl_reset session page).2) !! i
    = Some (if decide (type t = WT_PT_OVFL)
            then {| type := WT_PT_OVFL_DISCARD; ref := ref t;
                    addr := addr t; size := size t |}
            else t).
Proof.
  unfold __wt_rec_track_ovfl_reset. cbn.
  repeat split; [apply length_fmap|].
  intros i t Hlook. rewrite list_lookup_fmap, Hlook. cbn. f_equal.
  unfold ovfl_reset_slot. destruct (decide (type t = WT_PT_OVFL)) as [->|Hne].
  - reflexivity.
  - destruct (type t); congruence.
Qed.

(** ** [__wt_rec_track_ovfl_active] *)

(** The loop goes over the slots whose reference differs. *)
Lemma ovfl_active_loop_continue orig_data t rest addrp sizep :
  ref t <> orig_data ->
  ovfl_active_loop orig_data (t :: rest) addrp sizep
  = match ovfl_active_loop orig_data rest addrp sizep with
    | Return (rest', ret, a, s) => Return (t :: rest', ret, a, s)
    | AssertFailure => AssertFailure
    end.
Proof.
  intros Hne. cbn [ovfl_active_loop].
  rewrite (proj2 (Z.eqb_neq _ _) Hne). reflexivity.
Qed.

Lemma ovfl_active_loop_match t rest addrp sizep :
  ovfl_active_loop (ref t) (t :: rest) addrp sizep
  = WT_ASSERT (bool_decide (type t = WT_PT_OVFL_DISCARD))
      (Return (ovfl_activate_slot t :: rest, 1, addr t, size t)).
Proof. cbn [ovfl_active_loop]. rewrite Z.eqb_refl. reflexivity. Qed.

Lemma ovfl_active_loop_none orig_data l addrp sizep :
  Forall (fun t => ref t <> orig_data) l ->
  ovfl_active_loop orig_data l addrp sizep = Return (l, 0, addrp, sizep).
Proof.
  induction 1 as [|t rest Hne _ IH]; [reflexivity|].
  rewrite (ovfl_active_loop_continue _ _ _ _ _ Hne), IH. reflexivity.
Qed.

Lemma ovfl_active_loop_first orig_data pre t post addrp sizep :
  Forall (fun u => ref u <> orig_data) pre ->
  ref t = orig_data ->
  ovfl_active_loop orig_data (pre ++ t :: post) addrp sizep
  = WT_ASSERT (bool_decide (type t = WT_PT_OVFL_DISCARD))
      (Return (pre ++ ovfl_activate_slot t :: post, 1, addr t, size t)).
Proof.
  intros Hpre <-. induction Hpre as [|u pre Hne _ IH]; cbn [app].
  - apply ovfl_active_loop_match.
  - rewrite (ovfl_active_loop_continue _ _ _ _ _ Hne), IH.
    unfold WT_ASSERT. destruct (bool_decide _); reflexivity.
Qed.

(** The call on a page whose first slot with the reference is [t]. *)
Lemma ovfl_active_first session page orig_data pre t post addrp sizep :
  orig_data <> NULL ->
  track (modify page) = pre ++ t :: post ->
  Forall (fun u => ref u <> orig_data) pre ->
  ref t = orig_data ->
  __wt_rec_track_ovfl_active session page orig_data addrp sizep
  = WT_ASSERT (bool_decide (type t = WT_PT_OVFL_DISCARD))
      (Return (mk_ovfl_active_result session
                 (mk_page (mk_modify (pre ++ ovfl_activate_slot t :: post)
                             (track_entries (modify page))))
                 1 (addr t) (size t))).
Proof.
  intros Hnull Heq Hpre Href. unfold __wt_rec_track_ovfl_active.
  rewrite (proj2 (Z.eqb_neq _ _) Hnull), Heq.
  rewrite (ovfl_active_loop_first _ _ _ _ _ _ Hpre Href).
  unfold WT_ASSERT. destruct (bool_decide _); reflexivity.
Qed.

(** C6.  When [orig_data] is not [NULL] and the first slot of the list whose
    reference is [orig_data] is not of kind [WT_PT_OVFL_DISCARD] (it is of
    kind [WT_PT_OVFL], say), [__wt_rec_track_ovfl_active] fails the assertion
    of line 140 and returns nothing. *)
Theorem ovfl_active_asserts_discarded session page orig_data pre t post addrp sizep :
  orig_data <> NULL ->
  track (modify page) = pre ++ t :: post ->
  Forall (fun u => ref u <> orig_data) pre ->
  ref t = orig_data ->
  type t <> WT_PT_OVFL_DISCARD ->
  __wt_rec_track_ovfl_active session page orig_data addrp sizep = AssertFailure.
Proof.
  intros Hnull Heq Hpre Href Hty.
  rewrite (ovfl_active_first _ _ _ _ _ _ _ _ Hnull Heq Hpre Href).
  unfold WT_ASSERT. rewrite bool_decide_eq_false_2 by assumption. reflexivity.
Qed.

(** C9.  When [orig_data] is [NULL], or when no slot of the list has the
    reference [orig_data], [__wt_rec_track_ovfl_active] returns 0 and leaves
    the session, the page (every slot of the list) and the contents of
    [*addrp] and [*sizep] as they were. *)
Theorem ovfl_active_not_found session page orig_data addrp sizep :
  orig_data = NULL \/ Forall (fun t => ref t <> orig_data) (track (modify page)) ->
  __wt_rec_track_ovfl_active session page orig_data addrp sizep
  = Return (mk_ovfl_active_result session page 0 addrp sizep).
Proof.
  intros Hcase. unfold __wt_rec_track_ovfl_active.
  destruct (orig_data =? NULL) eqn:Enull; [reflexivity|].
  destruct Hcase as [->|Hall]; [discriminate Enull|].
  rewrite (ovfl_active_loop_none _ _ _ _ Hall).
  destruct page as [[l entries]]. reflexivity.
Qed.

(** C10.  [__wt_rec_track_ovfl_active] looks for a slot by its reference
    alone and acts on the first one in the order of the list.  With [t] the
    first slot whose reference is [orig_data], whatever its address and size
    and whatever the slots [post] after it (some of them may have the same
    reference, and any kind): when [t] is of kind [WT_PT_OVFL_DISCARD] the
    call returns 1 with [*addrp] and [*sizep] set to the address and size of
    [t], the kind of [t] is now [WT_PT_OVFL], and every other slot, before or
    after, is as it was; when [t] is of another kind the assertion fails.  In
    both cases no slot of [post] has any part in the result. *)
Theorem ovfl_active_first_match session page orig_data pre t post addrp sizep :
  orig_data <> NULL ->
  track (modify page) = pre ++ t :: post ->
  Forall (fun u => ref u <> orig_data) pre ->
  ref t = orig_data ->
  __wt_rec_track_ovfl_active session page orig_data addrp sizep
  = if decide (type t = WT_PT_OVFL_DISCARD)
    then Return (mk_ovfl_active_result session
                   (mk_page (mk_modify
                      (pre ++ {| type := WT_PT_OVFL; ref := ref t;
                                 addr := addr t; size := size t |} :: post)
                      (track_entries (modify page))))
                   1 (addr t) (size t))
    else AssertFailure.
Proof.
  intros Hnull Heq Hpre Href.
  rewrite (ovfl_active_first _ _ _ _ _ _ _ _ Hnull Heq Hpre Href).
  unfold WT_ASSERT. destruct (decide (type t = WT_PT_OVFL_DISCARD)) as [Hty|Hty].
  - rewrite bool_decide_eq_true_2 by assumption. reflexivity.
  - rewrite bool_decide_eq_false_2 by assumption. reflexivity.
Qed.

(** ** A pass over the page: reset, reactivate, resolve *)

Lemma ovfl_reset_slot_ref t : ref (ovfl_reset_slot t) = ref t.
Proof. unfold ovfl_reset_slot. destruct (type t); reflexivity. Qed.

Lemma ovfl_reset_slot_at_block addr_ size_ t :
  at_block addr_ size_ (ovfl_reset_slot t) = at_block addr_ size_ t.
Proof. unfold ovfl_reset_slot. destruct (type t); reflexivity. Qed.

(** C5.  Take a list with a slot ([WT_PT_OVFL], [R], [addr_], [size_]), [R]
    not [NULL], which is the first slot with the reference [R] and the only
    one at ([addr_], [size_]) -- for the spec's example, [addr_ = 100] and
    [size_ = 10].  After [__wt_rec_track_ovfl_reset] the slot is of kind
    [WT_PT_OVFL_DISCARD].  [__wt_rec_track_ovfl_active] for [R] then returns
    1 with [*addrp = addr_] and [*sizep = size_], and the slot is of kind
    [WT_PT_OVFL] again.  [__wt_rec_discard_track] then leaves the slot as it
    is, and none of the calls of [__wt_block_free] it makes is for
    ([addr_], [size_]). *)
Theorem ovfl_reset_active_round_trip session page R addr_ size_ pre post addrp sizep :
  R <> NULL ->
  track (modify page) = pre ++ mk_track WT_PT_OVFL R addr_ size_ :: post ->
  Forall (fun u => ref u <> R) pre ->
  Forall (fun u => at_block addr_ size_ u = false) (pre ++ post) ->
  track (modify (__wt_rec_track_ovfl_reset session page).2) !! length pre
    = Some (mk_track WT_PT_OVFL_DISCARD R addr_ size_) /\
  exists page2,
    __wt_rec_track_ovfl_active session
      (__wt_rec_track_ovfl_reset session page).2 R addrp sizep
    = Return (mk_ovfl_active_result session page2 1 addr_ size_) /\
    track (modify page2) !! length pre = Some (mk_track WT_PT_OVFL R addr_ size_) /\
    track (modify (r_page (__wt_rec_discard_track session page2))) !! length pre
      = Some (mk_track WT_PT_OVFL R addr_ size_) /\
    exists calls,
      free_calls (r_session (__wt_rec_discard_track session page2))
        = free_calls session ++ calls /\
      Forall (fun c => frees_block addr_ size_ c = false) calls.
Proof.
  intros Hnull Heq Hpre Hblock.
  set (pre' := ovfl_reset_slot <$> pre).
  set (post' := ovfl_reset_slot <$> post).
  assert (Hlen : length pre = length pre') by (symmetry; apply length_fmap).
  assert (Hreset : track (modify (__wt_rec_track_ovfl_reset session page).2)
                   = pre' ++ mk_track WT_PT_OVFL_DISCARD R addr_ size_ :: post').
  { unfold __wt_rec_track_ovfl_reset. cbn. rewrite Heq, fmap_app. reflexivity. }
  assert (Hpre' : Forall (fun u => ref u <> R) pre').
  { apply Forall_fmap. eapply Forall_impl; [exact Hpre|].
    intros u Hu. cbn. rewrite ovfl_reset_slot_ref. exact Hu. }
  split; [rewrite Hreset; apply list_lookup_middle, Hlen|].
  eexists. split; [|split; [|split]].
  - rewrite (ovfl_active_first _ _ R pre' _ post' addrp sizep Hnull Hreset Hpre' eq_refl).
    reflexivity.
  - cbn. apply list_lookup_middle, Hlen.
  - apply discard_track_keeps; [|reflexivity].
    cbn. apply list_lookup_middle, Hlen.
  - destruct (discard_track_calls session
        (mk_page (mk_modify (pre' ++ mk_track WT_PT_OVFL R addr_ size_ :: post')
                    (track_entries (modify (__wt_rec_track_ovfl_reset session page).2)))))
      as (calls & Hc & Hfrom).
    exists calls. split; [exact Hc|].
    apply Forall_forall. intros c Hin.
    destruct (Hfrom c Hin) as (u & Hu & Hdisc & Ha & Hs).
    cbn in Hu. unfold frees_block. rewrite Ha, Hs.
    apply elem_of_app in Hu as [Hu|Hu]; [|apply elem_of_cons in Hu as [->|Hu]].
    + apply list_elem_of_fmap in Hu as (v & -> & Hv).
      rewrite Forall_forall in Hblock.
      change (at_block addr_ size_ (ovfl_reset_slot v) = false).
      rewrite ovfl_reset_slot_at_block. apply Hblock, elem_of_app. left. exact Hv.
    + discriminate Hdisc.
    + apply list_elem_of_fmap in Hu as (v & -> & Hv).
      rewrite Forall_forall in Hblock.
      change (at_block addr_ size_ (ovfl_reset_slot v) = false).
      rewrite ovfl_reset_slot_at_block. apply Hblock, elem_of_app. right. exact Hv.
Qed.

(** ** Blocks *)

(** A call that returns changes at most one slot, of kind
    [WT_PT_OVFL_DISCARD]. *)
Lemma ovfl_active_loop_keeps orig_data l addrp sizep l' ret a s i t :
  ovfl_active_loop orig_data l addrp sizep = Return (l', ret, a, s) ->
  l !! i = Some t ->
  type t <> WT_PT_OVFL_DISCARD ->
  l' !! i = Some t.
Proof.
  revert l' i. induction l as [|u rest IH]; intros l' i Hrun Hlook Hty.
  - discriminate Hlook.
  - cbn [ovfl_active_loop] in Hrun. destruct (ref u =? orig_data); cbn [negb] in Hrun.
    + unfold WT_ASSERT in Hrun. destruct (bool_decide _) eqn:Edisc; [|discriminate Hrun].
      apply bool_decide_eq_true in Edisc. injection Hrun as <- _ _ _.
      destruct i as [|i]; cbn in Hlook |- *; [|exact Hlook].
      injection Hlook as ->. contradiction.
    + destruct (ovfl_active_loop orig_data rest addrp sizep) as [[[[rest' r'] a'] s']|];
        [|discriminate Hrun].
      injection Hrun as <- <- <- <-.
      destruct i as [|i]; cbn in Hlook |- *; [exact Hlook|].
      eapply IH; [reflexivity | exact Hlook | exact Hty].
Qed.

Lemma run_op_keeps_block o st st' i t :
  is_discard o = false ->
  run_op o st = Return st' ->
  track (modify (st_page st)) !! i = Some t ->
  type t = WT_PT_BLOCK ->
  track (modify (st_page st')) !! i = Some t.
Proof.
  intros Ho Hrun Hlook Hty. destruct o as [type_ ref_ addr_ size_| |orig_data|];
    cbn [run_op] in Hrun; [| | |discriminate Ho].
  - injection Hrun as <-. cbn.
    destruct (decide (mk_track type_ ref_ addr_ size_ ∈ track (modify (st_page st))))
      as [Hin|Hnin].
    + rewrite (rec_track_present _ _ _ _ _ _ Hin). exact Hlook.
    + destruct (rec_track_absent (st_session st) _ _ _ _ _ Hnin) as [[_ ->]|[_ ->]];
        [|exact Hlook].
      apply lookup_app_l_Some, Hlook.
  - injection Hrun as <-. cbn. rewrite list_lookup_fmap, Hlook. cbn. f_equal.
    unfold ovfl_reset_slot. rewrite Hty. reflexivity.
  - unfold __wt_rec_track_ovfl_active in Hrun.
    destruct (orig_data =? NULL); [injection Hrun as <-; exact Hlook|].
    destruct (ovfl_active_loop _ _ _ _) as [[[[l' r'] a'] s']|] eqn:Eloop;
      [|discriminate Hrun].
    injection Hrun as <-. cbn.
    eapply ovfl_active_loop_keeps; [exact Eloop | exact Hlook | congruence].
Qed.

Lemma run_ops_keeps_block os : forall st st' i t,
  Forall (fun o => is_discard o = false) os ->
  run_ops os st = Return st' ->
  track (modify (st_page st)) !! i = Some t ->
  type t = WT_PT_BLOCK ->
  track (modify (st_page st')) !! i = Some t.
Proof.
  induction os as [|o os IH]; intros st st' i t Hos Hrun Hlook Hty.
  - injection Hrun as <-. exact Hlook.
  - apply Forall_cons in Hos as [Ho Hos]. cbn [run_ops] in Hrun.
    destruct (run_op o st) as [st1|] eqn:Eop; [|discriminate Hrun].
    eapply IH; [exact Hos | exact Hrun | | exact Hty].
    eapply run_op_keeps_block; eassumption.
Qed.

(** When the loop returns an error, the value is the one the block manager
    returned for the slot it stopped at. *)
Lemma discard_track_loop_error_source l : forall session,
  (discard_track_loop session l).2 <> 0 ->
  exists pre f post w,
    l = pre ++ f :: post /\
    to_discard f = true /\
    (block_free w (addr f) (size f)).2 = (discard_track_loop session l).2 /\
    (discard_track_loop session l).1.2
      = (resolved_slot WT_ADDR_INVALID <$> pre) ++ f :: post /\
    free_calls (discard_track_loop session l).1.1
      = free_calls session
        ++ (free_of 0 <$> List.filter to_discard pre)
        ++ [free_of (discard_track_loop session l).2 f].
Proof.
  induction l as [|t rest IH]; intros session Hret.
  - cbn in Hret. congruence.
  - destruct (to_discard t) eqn:Ht.
    + rewrite (discard_track_loop_break _ _ _ Ht) in Hret |- *.
      unfold __wt_block_free in Hret |- *.
      destruct (block_free (world session) (addr t) (size t)) as [w1 ret] eqn:Ebf.
      destruct (ret =? 0) eqn:Eret; cbn [negb] in Hret |- *.
      * apply Z.eqb_eq in Eret; subst ret.
        specialize (IH (mk_session w1
                          (free_calls session ++ [mk_free_call (addr t) (size t) 0]))).
        destruct (discard_track_loop _ rest) as [[s' l'] ret'].
        cbn in IH, Hret |- *.
        destruct (IH Hret) as (pre & f & post & w & -> & Hf & Hw & Hl & Hc).
        exists (t :: pre), f, post, w. cbn. rewrite Ht, (resolved_slot_discards _ Ht).
        repeat split; [exact Hf | exact Hw | congruence|].
        rewrite Hc, <- app_assoc. reflexivity.
      * exists [], t, rest, (world session). cbn. rewrite Ebf.
        repeat split. exact Ht.
    + rewrite (discard_track_loop_continue _ _ _ Ht) in Hret |- *.
      specialize (IH session).
      destruct (discard_track_loop session rest) as [[s' l'] ret].
      cbn in IH, Hret |- *.
      destruct (IH Hret) as (pre & f & post & w & -> & Hf & Hw & Hl & Hc).
      exists (t :: pre), f, post, w. cbn. rewrite Ht, (resolved_slot_keeps _ Ht).
      repeat split; [exact Hf | exact Hw | congruence | exact Hc].
Qed.

(** C8.  A slot of kind [WT_PT_BLOCK] stays as it is through any calls of
    [__wt_rec_track_ovfl_active] that return (and of [__wt_rec_track] and
    [__wt_rec_track_ovfl_reset]): it is never given the kind [WT_PT_OVFL].
    The next call of [__wt_rec_discard_track], when it returns 0, has called
    [__wt_block_free] with success for the address and size of the slot and
    has reset the slot to ([WT_PT_EMPTY], [NULL], [WT_ADDR_INVALID], 0).  It
    returns 0 whenever the block manager fails no call.  When it returns
    another value, that value is what the block manager returned for a slot
    [f] of kind [WT_PT_BLOCK] or [WT_PT_OVFL_DISCARD], at which the loop
    stopped: a block before [f] has been freed with success and reset, a
    block at or after [f] is still as it was. *)
Theorem block_discarded_by_next_resolve os st st' i t :
  Forall (fun o => is_discard o = false) os ->
  run_ops os st = Return st' ->
  track (modify (st_page st)) !! i = Some t ->
  type t = WT_PT_BLOCK ->
  track (modify (st_page st')) !! i = Some t /\
  (r_ret (__wt_rec_discard_track (st_session st') (st_page st')) = 0 ->
   track (modify (r_page (__wt_rec_discard_track (st_session st') (st_page st')))) !! i
     = Some {| type := WT_PT_EMPTY; ref := NULL;
               addr := WT_ADDR_INVALID; size := 0 |} /\
   exists calls,
     free_calls (r_session (__wt_rec_discard_track (st_session st') (st_page st')))
       = free_calls (st_session st') ++ calls /\
     mk_free_call (addr t) (size t) 0 ∈ calls) /\
  (r_ret (__wt_rec_discard_track (st_session st') (st_page st')) <> 0 ->
   exists pre f post w,
     track (modify (st_page st')) = pre ++ f :: post /\
     (type f = WT_PT_BLOCK \/ type f = WT_PT_OVFL_DISCARD) /\
     (block_free w (addr f) (size f)).2
       = r_ret (__wt_rec_discard_track (st_session st') (st_page st')) /\
     free_calls (r_session (__wt_rec_discard_track (st_session st') (st_page st')))
       = free_calls (st_session st')
         ++ ((fun u => mk_free_call (addr u) (size u) 0) <$> List.filter to_discard pre)
         ++ [mk_free_call (addr f) (size f)
               (r_ret (__wt_rec_discard_track (st_session st') (st_page st')))] /\
     ((i < length pre)%nat ->
      track (modify (r_page (__wt_rec_discard_track (st_session st') (st_page st')))) !! i
        = Some {| type := WT_PT_EMPTY; ref := NULL;
                  addr := WT_ADDR_INVALID; size := 0 |} /\
      mk_free_call (addr t) (size t) 0
        ∈ (fun u => mk_free_call (addr u) (size u) 0) <$> List.filter to_discard pre) /\
     ((length pre <= i)%nat ->
      track (modify (r_page (__wt_rec_discard_track (st_session st') (st_page st')))) !! i
        = Some t)) /\
  ((forall w addr_ size_, (block_free w addr_ size_).2 = 0) ->
   r_ret (__wt_rec_discard_track (st_session st') (st_page st')) = 0).
Proof.
  intros Hos Hrun Hlook Hty.
  pose proof (run_ops_keeps_block _ _ _ _ _ Hos Hrun Hlook Hty) as Hlook'.
  assert (Ht : to_discard t = true) by (apply to_discard_type; left; exact Hty).
  split; [exact Hlook'|]. split; [intros Hret|split; [intros Hret|]].
  - destruct (discard_track_success _ _ Hret) as [Hl Hc]. split.
    + rewrite Hl, list_lookup_fmap, Hlook'. cbn. f_equal.
      apply resolved_slot_discards, Ht.
    + eexists. split; [exact Hc|].
      apply list_elem_of_fmap. exists t. split; [reflexivity|].
      apply list_elem_of_In, filter_In. split; [|exact Ht].
      apply list_elem_of_In. eapply list_elem_of_lookup_2, Hlook'.
  - rewrite discard_track_unfold in Hret |- *. cbn in Hret |- *.
    destruct (discard_track_loop_error_source _ _ Hret)
      as (pre & f & post & w & Heq & Hf & Hw & Hl & Hc).
    exists pre, f, post, w.
    split; [exact Heq|]. split; [apply to_discard_type, Hf|].
    split; [exact Hw|]. split; [exact Hc|].
    rewrite Hl. rewrite Heq in Hlook'. split.
    + intros Hlt. rewrite lookup_app_l in Hlook' by exact Hlt.
      split.
      * rewrite lookup_app_l by (rewrite length_fmap; exact Hlt).
        rewrite list_lookup_fmap, Hlook'. cbn. f_equal.
        apply resolved_slot_discards, Ht.
      * apply list_elem_of_fmap. exists t. split; [reflexivity|].
        apply list_elem_of_In, filter_In. split; [|exact Ht].
        apply list_elem_of_In. eapply list_elem_of_lookup_2, Hlook'.
    + intros Hge. rewrite lookup_app_r in Hlook' by exact Hge.
      rewrite lookup_app_r by (rewrite length_fmap; exact Hge).
      rewrite length_fmap. exact Hlook'.
  - apply discard_track_returns_0.
Qed.

(** ** The invariant I1 *)

Lemma rec_track_I1 session page type_ ref_ addr_ size_ :
  I1 page -> I1 (r_page (__wt_rec_track session page type_ ref_ addr_ size_)).
Proof.
  unfold I1. intros Hnd.
  destruct (decide (mk_track type_ ref_ addr_ size_ ∈ track (modify page)))
    as [Hin|Hnin].
  - rewrite (rec_track_present _ _ _ _ _ _ Hin). exact Hnd.
  - destruct (rec_track_absent session _ _ _ _ _ Hnin) as [[_ ->]|[_ ->]];
      [|exact Hnd].
    apply NoDup_app. split; [exact Hnd|]. split; [|apply NoDup_singleton].
    intros x Hx Hx'. apply list_elem_of_singleton in Hx'. subst x. contradiction.
Qed.

Lemma rec_track_I1_non_empty session page type_ ref_ addr_ size_ :
  I1_non_empty page ->
  I1_non_empty (r_page (__wt_rec_track session page type_ ref_ addr_ size_)).
Proof.
  unfold I1_non_empty. intros Hnd.
  destruct (decide (mk_track type_ ref_ addr_ size_ ∈ track (modify page)))
    as [Hin|Hnin].
  - rewrite (rec_track_present _ _ _ _ _ _ Hin). exact Hnd.
  - destruct (rec_track_absent session _ _ _ _ _ Hnin) as [[_ ->]|[_ ->]];
      [|exact Hnd].
    rewrite List.filter_app. cbn [List.filter].
    destruct (non_empty _); [|rewrite app_nil_r; exact Hnd].
    apply NoDup_app. split; [exact Hnd|]. split; [|apply NoDup_singleton].
    intros x Hx Hx'. apply list_elem_of_singleton in Hx'. subst x.
    apply list_elem_of_In, filter_In in Hx as [Hx _].
    apply Hnin, list_elem_of_In, Hx.
Qed.

Lemma filter_non_empty_resolved (l : list WT_PAGE_TRACK) :
  List.filter non_empty (resolved_slot WT_ADDR_INVALID <$> l)
    `sublist_of` List.filter non_empty l.
Proof.
  induction l as [|x l IH]; [constructor|]. cbn [fmap list_fmap List.filter].
  change (list_fmap _ _ (resolved_slot WT_ADDR_INVALID) l)
    with (resolved_slot WT_ADDR_INVALID <$> l).
  destruct (to_discard x) eqn:Ex.
  - rewrite (resolved_slot_discards _ Ex). cbn.
    destruct (non_empty x); [apply sublist_cons|]; exact IH.
  - rewrite (resolved_slot_keeps _ Ex).
    destruct (non_empty x); [apply sublist_skip|]; exact IH.
Qed.

Lemma discard_track_I1_non_empty session page :
  I1_non_empty page ->
  I1_non_empty (r_page (__wt_rec_discard_track session page)).
Proof.
  unfold I1_non_empty. intros Hnd. eapply sublist_NoDup; [exact Hnd|].
  rewrite discard_track_unfold. cbn.
  destruct (discard_track_loop_char session (track (modify page))) as (n & _ & -> & _).
  rewrite <- (take_drop n (track (modify page))) at 3.
  rewrite !List.filter_app. apply sublist_app; [|reflexivity].
  apply filter_non_empty_resolved.
Qed.

Lemma run_ops_track_I1 os : forall st st',
  Forall (fun o => is_track o = true) os ->
  I1 (st_page st) ->
  run_ops os st = Return st' ->
  I1 (st_page st').
Proof.
  induction os as [|o os IH]; intros st st' Hos HI Hrun.
  - injection Hrun as <-. exact HI.
  - apply Forall_cons in Hos as [Ho Hos].
    destruct o as [type_ ref_ addr_ size_| | |]; try discriminate Ho.
    cbn [run_ops run_op] in Hrun.
    eapply IH; [exact Hos | | exact Hrun]. cbn. apply rec_track_I1, HI.
Qed.

(** C7, amended.  I1 (no two slots with the same type, reference, address
    and size) is kept by [__wt_rec_track], and holds in every state a page
    with an empty list gets to by calls of [__wt_rec_track].  On the slots
    that are not of kind [WT_PT_EMPTY], I1 is kept by [__wt_rec_track] and by
    [__wt_rec_discard_track]. *)
Theorem I1_kept_by_track session page :
  (forall type_ ref_ addr_ size_,
     I1 page ->
     I1 (r_page (__wt_rec_track session page type_ ref_ addr_ size_))) /\
  (forall type_ ref_ addr_ size_,
     I1_non_empty page ->
     I1_non_empty (r_page (__wt_rec_track session page type_ ref_ addr_ size_))) /\
  (I1_non_empty page ->
   I1_non_empty (r_page (__wt_rec_discard_track session page))) /\
  (forall entries os st,
     Forall (fun o => is_track o = true) os ->
     run_ops os (mk_state session (mk_page (mk_modify [] entries))) = Return st ->
     I1 (st_page st)).
Proof.
  split; [intros; apply rec_track_I1; assumption|].
  split; [intros; apply rec_track_I1_non_empty; assumption|].
  split; [apply discard_track_I1_non_empty|].
  intros entries os st Hos Hrun.
  eapply run_ops_track_I1; [exact Hos | | exact Hrun]. constructor.
Qed.

(** ** More on [__wt_rec_track]: allocation *)

(** X1.  [__wt_rec_track] returns an error only when it had to grow the
    array: the tuple was not in the list, every allocated slot was in use,
    and the value returned is the one [__wt_realloc] returned.  The page is
    then as it was, and no call of [__wt_block_free] was made. *)
Theorem rec_track_error_is_allocation session page type_ ref_ addr_ size_ :
  r_ret (__wt_rec_track session page type_ ref_ addr_ size_) <> 0 ->
  (mk_track type_ ref_ addr_ size_ ∉ track (modify page)) /\
  track_next (modify page) = track_entries (modify page) /\
  r_ret (__wt_rec_track session page type_ ref_ addr_ size_)
    = (realloc (world session)
         (track_entries (modify page) * sizeof_track)
         ((track_entries (modify page) + 20) mod 2 ^ 32 * sizeof_track)).2 /\
  r_page (__wt_rec_track session page type_ ref_ addr_ size_) = page /\
  free_calls (r_session (__wt_rec_track session page type_ ref_ addr_ size_))
    = free_calls session.
Proof.
  unfold __wt_rec_track. destruct (existsb _ _) eqn:Edup; [intros []; reflexivity|].
  destruct (track_next (modify page) =? track_entries (modify page)) eqn:Efull;
    [|intros []; reflexivity].
  unfold __wt_realloc. destruct (realloc _ _ _) as [w ret].
  destruct (ret =? 0) eqn:Eret; cbn; [intros []; reflexivity|]. intros _.
  repeat split; [|apply Z.eqb_eq, Efull].
  intros Hin. apply existsb_same_tuple in Hin. congruence.
Qed.

(** X2.  [__wt_rec_track] keeps the slots in use within the slots allocated:
    when [track_next <= track_entries] holds before the call and
    [track_entries + 20] does not wrap, it holds after the call, whatever the
    call returns; [track_entries] is then as it was or 20 more. *)
Theorem rec_track_within_allocation session page type_ ref_ addr_ size_ :
  track_next (modify page) <= track_entries (modify page) ->
  track_entries (modify page) + 20 < 2 ^ 32 ->
  track_next (modify (r_page (__wt_rec_track session page type_ ref_ addr_ size_)))
    <= track_entries (modify (r_page (__wt_rec_track session page type_ ref_ addr_ size_))) /\
  (track_entries (modify (r_page (__wt_rec_track session page type_ ref_ addr_ size_)))
     = track_entries (modify page) \/
   track_entries (modify (r_page (__wt_rec_track session page type_ ref_ addr_ size_)))
     = track_entries (modify page) + 20).
Proof.
  unfold track_next. intros Hle Hbound. unfold __wt_rec_track, track_next.
  destruct (existsb _ _); [split; [exact Hle | left; reflexivity]|].
  destruct (_ =? _) eqn:Efull.
  - unfold __wt_realloc. destruct (realloc _ _ _) as [w ret].
    destruct (ret =? 0); cbn; [|split; [exact Hle | left; reflexivity]].
    rewrite length_app, Z.mod_small by lia. cbn. split; [lia | right; reflexivity].
  - apply Z.eqb_neq in Efull. cbn. rewrite length_app. cbn.
    split; [lia | left; reflexivity].
Qed.

(** X3.  A call of [__wt_rec_track] that does not have to grow the array
    (the tuple is in the list, or an allocated slot is free) returns 0 and
    leaves the session as it was: the allocator is not called. *)
Theorem rec_track_no_allocation session page type_ ref_ addr_ size_ :
  (mk_track type_ ref_ addr_ size_ ∈ track (modify page)) \/
  (track_next (modify page) <> track_entries (modify page)) ->
  r_ret (__wt_rec_track session page type_ ref_ addr_ size_) = 0 /\
  r_session (__wt_rec_track session page type_ ref_ addr_ size_) = session.
Proof.
  intros Hcase. unfold __wt_rec_track.
  destruct (existsb _ _) eqn:Edup; [split; reflexivity|].
  destruct Hcase as [Hin|Hroom].
  - apply existsb_same_tuple in Hin. congruence.
  - apply Z.eqb_neq in Hroom. rewrite Hroom. split; reflexivity.
Qed.

Lemma rec_track_prefix session page type_ ref_ addr_ size_ :
  exists added,
    track (modify (r_page (__wt_rec_track session page type_ ref_ addr_ size_)))
      = track (modify page) ++ added /\
    (length added <= 1)%nat.
Proof.
  destruct (decide (mk_track type_ ref_ addr_ size_ ∈ track (modify page)))
    as [Hin|Hnin].
  - rewrite (rec_track_present _ _ _ _ _ _ Hin). cbn.
    exists []. rewrite app_nil_r. split; [reflexivity | cbn; lia].
  - destruct (rec_track_absent session _ _ _ _ _ Hnin) as [[_ ->]|[_ ->]].
    + eexists. split; [reflexivity | cbn; lia].
    + exists []. rewrite app_nil_r. split; [reflexivity | cbn; lia].
Qed.

(** X4.  [__wt_rec_track] only ever appends: the list before the call is a
    prefix of the list after it, slot for slot, and the call adds at most
    one slot. *)
Theorem rec_track_appends session page type_ ref_ addr_ size_ :
  track (modify page)
    `prefix_of` track (modify (r_page (__wt_rec_track session page type_ ref_ addr_ size_))) /\
  (length (track (modify (r_page (__wt_rec_track session page type_ ref_ addr_ size_))))
   <= S (length (track (modify page))))%nat.
Proof.
  destruct (rec_track_prefix session page type_ ref_ addr_ size_) as (added & -> & Hlen).
  split; [apply prefix_app_r; reflexivity|]. rewrite length_app. lia.
Qed.

(** X5.  With an allocator that does not fail, registering tuples that are
    pairwise different and not yet in the list appends them all, in the
    order of the calls, and every call returns 0 -- however many slots had
    been allocated, and whatever the list held. *)
Theorem track_all_registers ts : forall session page,
  (forall w bytes_allocated bytes, (realloc w bytes_allocated bytes).2 = 0) ->
  NoDup ts ->
  Forall (fun t => t ∉ track (modify page)) ts ->
  track (modify (track_all ts session page).1.2) = track (modify page) ++ ts /\
  Forall (fun ret => ret = 0) (track_all ts session page).2.
Proof.
  induction ts as [|t ts IH]; intros session page Hok Hnd Hnew.
  - cbn. rewrite app_nil_r. split; [reflexivity | constructor].
  - cbn [track_all].
    set (r := __wt_rec_track session page (type t) (ref t) (addr t) (size t)).
    assert (Ht : mk_track (type t) (ref t) (addr t) (size t) = t) by (destruct t; reflexivity).
    apply NoDup_cons in Hnd as [Htnin Hnd].
    apply Forall_cons in Hnew as [Hnin Hnew].
    rewrite <- Ht in Hnin.
    assert (Hret : r_ret r = 0) by (apply rec_track_succeeds, Hok).
    destruct (rec_track_absent session _ _ _ _ _ Hnin) as [[_ Hl]|[Hne _]];
      [|contradiction].
    fold r in Hl. rewrite Ht in Hl.
    destruct (IH (r_session r) (r_page r) Hok Hnd) as [Hall Hrets].
    { rewrite Hl. rewrite Forall_forall in Hnew |- *. intros u Hu Hin.
      apply elem_of_app in Hin as [Hin|Hin]; [exact (Hnew u Hu Hin)|].
      apply list_elem_of_singleton in Hin. subst u. contradiction. }
    destruct (track_all ts (r_session r) (r_page r)) as [[s' p'] rets].
    cbn in Hall, Hrets |- *. rewrite Hall, Hl, <- app_assoc.
    split; [reflexivity | constructor; assumption].
Qed.

(** ** More on [__wt_rec_discard_track] *)

(** X6.  [__wt_rec_discard_track] never removes or moves a slot: whatever it
    returns, the list has the length it had and the number of slots
    allocated is as it was. *)
Theorem discard_track_keeps_length session page :
  length (track (modify (r_page (__wt_rec_discard_track session page))))
    = length (track (modify page)) /\
  track_entries (modify (r_page (__wt_rec_discard_track session page)))
    = track_entries (modify page).
Proof.
  rewrite discard_track_unfold. cbn. split; [|reflexivity].
  destruct (discard_track_loop_char session (track (modify page))) as (n & _ & -> & _).
  rewrite length_app, length_fmap, <- length_app, take_drop. reflexivity.
Qed.

(** The loop does nothing on slots none of which is to be discarded. *)
Lemma discard_track_loop_nothing session l :
  Forall (fun t => to_discard t = false) l ->
  discard_track_loop session l = (session, l, 0).
Proof.
  induction 1 as [|t rest Ht _ IH]; [reflexivity|].
  rewrite (discard_track_loop_continue _ _ _ Ht), IH. reflexivity.
Qed.

(** X7.  Once [__wt_rec_discard_track] has returned 0, calling it again, with
    any session, makes no call of [__wt_block_free], returns 0 and leaves
    the page as it is: nothing is freed a second time. *)
Theorem discard_track_again_is_noop session page session2 :
  r_ret (__wt_rec_discard_track session page) = 0 ->
  __wt_rec_discard_track session2 (r_page (__wt_rec_discard_track session page))
  = mk_result session2 (r_page (__wt_rec_discard_track session page)) 0.
Proof.
  intros Hret. destruct (discard_track_success _ _ Hret) as [Hl _].
  rewrite (discard_track_unfold session2).
  rewrite Hl, discard_track_loop_nothing by apply resolved_not_to_discard.
  cbn. rewrite <- Hl.
  destruct (r_page (__wt_rec_discard_track session page)) as [[l e]]. reflexivity.
Qed.

(** X8.  Every call of [__wt_block_free] that [__wt_rec_discard_track] makes
    is for the address and size of a slot of the list of kind [WT_PT_BLOCK]
    or [WT_PT_OVFL_DISCARD], and it makes at most one call for each such
    slot: whatever the block manager answers, nothing else is freed. *)
Theorem discard_track_frees_tracked_only session page :
  exists calls,
    free_calls (r_session (__wt_rec_discard_track session page))
      = free_calls session ++ calls /\
    (length calls <= length (List.filter to_discard (track (modify page))))%nat /\
    forall c, c ∈ calls ->
      exists i t,
        track (modify page) !! i = Some t /\
        (type t = WT_PT_BLOCK \/ type t = WT_PT_OVFL_DISCARD) /\
        fc_addr c = addr t /\ fc_size c = size t.
Proof.
  destruct (discard_track_calls session page) as (calls & Hc & Hfrom).
  exists calls. split; [exact Hc|]. split.
  - rewrite discard_track_unfold in Hc. cbn in Hc.
    destruct (discard_track_loop_calls session (track (modify page)))
      as (calls' & Hc' & Hpre).
    rewrite Hc in Hc'. apply app_inv_head in Hc'. subst calls'.
    apply prefix_length in Hpre. rewrite !length_fmap in Hpre. exact Hpre.
  - intros c Hin. destruct (Hfrom c Hin) as (t & Ht & Hdisc & Ha & Hs).
    apply list_elem_of_lookup_1 in Ht as [i Hi].
    exists i, t. repeat split; [exact Hi | apply to_discard_type, Hdisc | exact Ha | exact Hs].
Qed.

(** X9.  The duplicate check of [__wt_rec_track] does not reach across a
    resolve.  Once [__wt_rec_discard_track] has returned 0, a tuple of
    kind [WT_PT_BLOCK] or [WT_PT_OVFL_DISCARD] is in no slot, even if it was
    tracked before: registering it, when the call returns 0, appends a new
    slot. *)
Theorem rec_track_after_discard_appends session page session2 type_ ref_ addr_ size_ :
  r_ret (__wt_rec_discard_track session page) = 0 ->
  type_ = WT_PT_BLOCK \/ type_ = WT_PT_OVFL_DISCARD ->
  r_ret (__wt_rec_track session2 (r_page (__wt_rec_discard_track session page))
           type_ ref_ addr_ size_) = 0 ->
  track (modify (r_page
    (__wt_rec_track session2 (r_page (__wt_rec_discard_track session page))
       type_ ref_ addr_ size_)))
  = track (modify (r_page (__wt_rec_discard_track session page)))
    ++ [mk_track type_ ref_ addr_ size_].
Proof.
  intros Hret Hty Hret2. destruct (discard_track_success _ _ Hret) as [Hl _].
  assert (Hnin : mk_track type_ ref_ addr_ size_
                 ∉ track (modify (r_page (__wt_rec_discard_track session page)))).
  { rewrite Hl. intros Hin.
    pose proof (resolved_not_to_discard (track (modify page))) as Hall.
    rewrite Forall_forall in Hall. specialize (Hall _ Hin).
    assert (Hdisc : to_discard (mk_track type_ ref_ addr_ size_) = true)
      by (apply to_discard_type; exact Hty).
    congruence. }
  destruct (rec_track_absent session2 _ _ _ _ _ Hnin) as [[_ Happ]|[Hne _]];
    [exact Happ | contradiction].
Qed.

(** With a block manager that fails every call, the loop stops at the first
    slot to discard. *)
Lemma discard_track_loop_all_fail session l :
  (forall w addr_ size_, (block_free w addr_ size_).2 <> 0) ->
  (discard_track_loop session l).1.2 = l /\
  (exists calls,
     free_calls (discard_track_loop session l).1.1 = free_calls session ++ calls /\
     (length calls <= 1)%nat) /\
  ((discard_track_loop session l).2 = 0 <-> Forall (fun t => to_discard t = false) l).
Proof.
  intros Hfail. induction l as [|t rest IH].
  - cbn. split; [reflexivity|]. split; [exists []; rewrite app_nil_r; split; [reflexivity | cbn; lia]|].
    split; [constructor | reflexivity].
  - destruct (to_discard t) eqn:Ht.
    + rewrite (discard_track_loop_break _ _ _ Ht). unfold __wt_block_free.
      pose proof (Hfail (world session) (addr t) (size t)) as Hret.
      destruct (block_free (world session) (addr t) (size t)) as [w ret].
      cbn in Hret. rewrite (proj2 (Z.eqb_neq _ _) Hret). cbn.
      split; [reflexivity|]. split; [eexists; split; [reflexivity | cbn; lia]|].
      split; [contradiction|]. intros Hall. apply Forall_cons in Hall as [Hno _]. congruence.
    + rewrite (discard_track_loop_continue _ _ _ Ht).
      destruct IH as (Hl & (calls & Hc & Hlen) & Hiff).
      destruct (discard_track_loop session rest) as [[s' l'] ret]. cbn in *.
      split; [congruence|]. split; [exists calls; split; assumption|].
      rewrite Hiff. split; [intros; constructor; assumption|].
      intros Hall. apply Forall_cons in Hall as [_ Hall]. exact Hall.
Qed.

(** X10.  With a block manager that fails every call,
    [__wt_rec_discard_track] leaves the page exactly as it was and makes at
    most one call; it returns 0 only when no slot was to be discarded. *)
Theorem discard_track_all_fail session page :
  (forall w addr_ size_, (block_free w addr_ size_).2 <> 0) ->
  r_page (__wt_rec_discard_track session page) = page /\
  (exists calls,
     free_calls (r_session (__wt_rec_discard_track session page))
       = free_calls session ++ calls /\
     (length calls <= 1)%nat) /\
  (r_ret (__wt_rec_discard_track session page) = 0
   <-> Forall (fun t => to_discard t = false) (track (modify page))).
Proof.
  intros Hfail. rewrite discard_track_unfold. cbn.
  destruct (discard_track_loop_all_fail session (track (modify page)) Hfail)
    as (Hl & Hc & Hiff).
  split; [|split; assumption].
  rewrite Hl. destruct page as [[l e]]. reflexivity.
Qed.

(** ** More on [__wt_rec_track_ovfl_reset] *)

Lemma ovfl_reset_slot_idem t : ovfl_reset_slot (ovfl_reset_slot t) = ovfl_reset_slot t.
Proof. unfold ovfl_reset_slot. destruct t as [[] r a s]; reflexivity. Qed.

Lemma ovfl_reset_slot_not_ovfl t : type (ovfl_reset_slot t) <> WT_PT_OVFL.
Proof. unfold ovfl_reset_slot. destruct t as [[] r a s]; discriminate. Qed.

(** X11.  After [__wt_rec_track_ovfl_reset] no slot is of kind [WT_PT_OVFL],
    and a second call changes nothing more. *)
Theorem ovfl_reset_idempotent session page :
  Forall (fun t => type t <> WT_PT_OVFL)
    (track (modify (__wt_rec_track_ovfl_reset session page).2)) /\
  __wt_rec_track_ovfl_reset (__wt_rec_track_ovfl_reset session page).1
    (__wt_rec_track_ovfl_reset session page).2
  = __wt_rec_track_ovfl_reset session page.
Proof.
  unfold __wt_rec_track_ovfl_reset. cbn. split.
  - apply Forall_fmap, Forall_forall. intros t _. apply ovfl_reset_slot_not_ovfl.
  - rewrite <- list_fmap_compose. do 3 f_equal.
    apply list_fmap_ext. intros i t _. apply ovfl_reset_slot_idem.
Qed.

Lemma filter_to_discard_reset (l : list WT_PAGE_TRACK) :
  free_of 0 <$> List.filter to_discard (ovfl_reset_slot <$> l)
  = free_of 0 <$> List.filter non_empty l.
Proof.
  induction l as [|t l IH]; [reflexivity|]. cbn.
  change (list_fmap _ _ ovfl_reset_slot l) with (ovfl_reset_slot <$> l).
  destruct t as [[] r a s]; cbn; rewrite ?IH; reflexivity.
Qed.

(** X12.  A pass in which nothing is reactivated sweeps the whole list:
    after [__wt_rec_track_ovfl_reset], a call of [__wt_rec_discard_track]
    that returns 0 has called [__wt_block_free] once, with success, for
    every slot that was not of kind [WT_PT_EMPTY] -- blocks and overflow
    records, active or not -- and every slot is now of kind
    [WT_PT_EMPTY]. *)
Theorem reset_then_discard_sweeps_all session page :
  r_ret (__wt_rec_discard_track (__wt_rec_track_ovfl_reset session page).1
           (__wt_rec_track_ovfl_reset session page).2) = 0 ->
  Forall (fun t => type t = WT_PT_EMPTY)
    (track (modify (r_page
       (__wt_rec_discard_track (__wt_rec_track_ovfl_reset session page).1
          (__wt_rec_track_ovfl_reset session page).2)))) /\
  free_calls (r_session
     (__wt_rec_discard_track (__wt_rec_track_ovfl_reset session page).1
        (__wt_rec_track_ovfl_reset session page).2))
  = free_calls session
    ++ ((fun t => mk_free_call (addr t) (size t) 0)
          <$> List.filter non_empty (track (modify page))).
Proof.
  intros Hret. destruct (discard_track_success _ _ Hret) as [Hl Hc].
  rewrite Hl, Hc. cbn. split.
  - apply Forall_fmap, Forall_fmap, Forall_forall. intros t _. cbn.
    unfold resolved_slot, to_discard, ovfl_reset_slot.
    destruct t as [[] r a s]; reflexivity.
  - f_equal. apply filter_to_discard_reset.
Qed.

(** ** More on [__wt_rec_track_ovfl_active] *)

(** Either no slot has the reference, or there is a first one. *)
Lemma first_ref_split orig_data (l : list WT_PAGE_TRACK) :
  Forall (fun t => ref t <> orig_data) l \/
  exists pre t post,
    l = pre ++ t :: post /\
    Forall (fun u => ref u <> orig_data) pre /\
    ref t = orig_data.
Proof.
  induction l as [|u l IH]; [left; constructor|].
  destruct (decide (ref u = orig_data)) as [Heq|Hne].
  - right. exists [], u, l. repeat split; [constructor | exact Heq].
  - destruct IH as [Hall|(pre & t & post & -> & Hpre & Ht)].
    + left. constructor; assumption.
    + right. exists (u :: pre), t, post. repeat split; [constructor; assumption | exact Ht].
Qed.

(** The three ways through the function. *)
Lemma ovfl_active_cases session page orig_data addrp sizep :
  (orig_data = NULL /\
   __wt_rec_track_ovfl_active session page orig_data addrp sizep
   = Return (mk_ovfl_active_result session page 0 addrp sizep)) \/
  (orig_data <> NULL /\
   Forall (fun t => ref t <> orig_data) (track (modify page)) /\
   __wt_rec_track_ovfl_active session page orig_data addrp sizep
   = Return (mk_ovfl_active_result session page 0 addrp sizep)) \/
  (orig_data <> NULL /\
   exists pre t post,
     track (modify page) = pre ++ t :: post /\
     Forall (fun u => ref u <> orig_data) pre /\
     ref t = orig_data /\
     __wt_rec_track_ovfl_active session page orig_data addrp sizep
     = WT_ASSERT (bool_decide (type t = WT_PT_OVFL_DISCARD))
         (Return (mk_ovfl_active_result session
                    (mk_page (mk_modify (pre ++ ovfl_activate_slot t :: post)
                                (track_entries (modify page))))
                    1 (addr t) (size t)))).
Proof.
  destruct (decide (orig_data = NULL)) as [->|Hnull]; [left; split; reflexivity|].
  right. destruct (first_ref_split orig_data (track (modify page)))
    as [Hall|(pre & t & post & Heq & Hpre & Ht)].
  - left. split; [exact Hnull|]. split; [exact Hall|].
    unfold __wt_rec_track_ovfl_active.
    rewrite (proj2 (Z.eqb_neq _ _) Hnull), (ovfl_active_loop_none _ _ _ _ Hall).
    destruct page as [[l e]]. reflexivity.
  - right. split; [exact Hnull|]. exists pre, t, post.
    repeat split; try assumption. apply ovfl_active_first; assumption.
Qed.

(** X13.  When [__wt_rec_track_ovfl_active] returns, it returns 0 or 1 and
    the session is as it was.  With 0 nothing has changed: the page, [*addrp]
    and [*sizep] are as they were.  With 1, exactly one slot has changed: a
    slot [i] with the reference [orig_data] and of kind [WT_PT_OVFL_DISCARD]
    is now of kind [WT_PT_OVFL], and [*addrp] and [*sizep] are its address
    and size. *)
Theorem ovfl_active_returns session page orig_data addrp sizep r :
  __wt_rec_track_ovfl_active session page orig_data addrp sizep = Return r ->
  oa_session r = session /\
  ((oa_ret r = 0 /\ oa_page r = page /\ oa_addrp r = addrp /\ oa_sizep r = sizep) \/
   (oa_ret r = 1 /\
    exists (i : nat) t,
      track (modify page) !! i = Some t /\
      ref t = orig_data /\
      type t = WT_PT_OVFL_DISCARD /\
      oa_page r
        = mk_page (mk_modify
            (<[i := mk_track WT_PT_OVFL (ref t) (addr t) (size t)]> (track (modify page)))
            (track_entries (modify page))) /\
      oa_addrp r = addr t /\ oa_sizep r = size t)).
Proof.
  intros Hrun.
  destruct (ovfl_active_cases session page orig_data addrp sizep)
    as [[_ Heq]|[(_ & _ & Heq)|(_ & pre & t & post & Hl & _ & Ht & Heq)]];
    rewrite Heq in Hrun.
  1, 2: injection Hrun as <-; cbn; split; [reflexivity | left; repeat split].
  unfold WT_ASSERT in Hrun. destruct (bool_decide _) eqn:Edisc; [|discriminate Hrun].
  apply bool_decide_eq_true in Edisc. injection Hrun as <-. cbn.
  split; [reflexivity|]. right. split; [reflexivity|].
  exists (length pre), t. rewrite Hl.
  split; [apply list_lookup_middle; reflexivity|].
  repeat split; try assumption.
  rewrite <- (Nat.add_0_r (length pre)), insert_app_r. reflexivity.
Qed.

(** X14.  A reference cannot be reactivated twice.  Once
    [__wt_rec_track_ovfl_active] has returned 1 for [orig_data], a second
    call for [orig_data] on the page it left finds the slot active and fails
    the assertion. *)
Theorem ovfl_active_twice_asserts session page orig_data addrp sizep r
    session2 addrp2 sizep2 :
  __wt_rec_track_ovfl_active session page orig_data addrp sizep = Return r ->
  oa_ret r = 1 ->
  __wt_rec_track_ovfl_active session2 (oa_page r) orig_data addrp2 sizep2
  = AssertFailure.
Proof.
  intros Hrun Hret.
  destruct (ovfl_active_cases session page orig_data addrp sizep)
    as [[_ Heq]|[(_ & _ & Heq)|(Hnull & pre & t & post & Hl & Hpre & Ht & Heq)]];
    rewrite Heq in Hrun.
  1, 2: injection Hrun as <-; discriminate Hret.
  unfold WT_ASSERT in Hrun. destruct (bool_decide _); [|discriminate Hrun].
  injection Hrun as <-. cbn.
  rewrite (ovfl_active_first session2
             (mk_page (mk_modify (pre ++ ovfl_activate_slot t :: post)
                         (track_entries (modify page))))
             orig_data pre (ovfl_activate_slot t) post
             addrp2 sizep2 Hnull eq_refl Hpre Ht).
  reflexivity.
Qed.

(** X15.  After [__wt_rec_track_ovfl_reset], reactivating a reference that
    only overflow records carry cannot fail the assertion:
    [__wt_rec_track_ovfl_active] returns, and it returns 1 exactly when the
    reference is not [NULL] and some slot carries it. *)
Theorem ovfl_active_after_reset_returns session page orig_data addrp sizep :
  Forall (fun t => ref t = orig_data ->
                   type t = WT_PT_OVFL \/ type t = WT_PT_OVFL_DISCARD)
    (track (modify page)) ->
  exists r,
    __wt_rec_track_ovfl_active (__wt_rec_track_ovfl_reset session page).1
      (__wt_rec_track_ovfl_reset session page).2 orig_data addrp sizep
    = Return r /\
    (oa_ret r = 1 <->
     orig_data <> NULL /\ Exists (fun t => ref t = orig_data) (track (modify page))).
Proof.
  intros Hkinds.
  destruct (ovfl_active_cases (__wt_rec_track_ovfl_reset session page).1
              (__wt_rec_track_ovfl_reset session page).2 orig_data addrp sizep)
    as [[Hnull ->]|[(Hnull & Hall & ->)|(Hnull & pre & t & post & Hl & Hpre & Ht & ->)]].
  - eexists. split; [reflexivity|]. cbn. split; [discriminate | intros [[] _]; exact Hnull].
  - eexists. split; [reflexivity|]. cbn. split; [discriminate|].
    intros [_ Hex]. exfalso. apply Exists_exists in Hex as (u & Hu & Href).
    cbn in Hall. rewrite Forall_fmap, Forall_forall in Hall.
    apply (Hall u Hu). cbn. rewrite ovfl_reset_slot_ref. exact Href.
  - cbn in Hl.
    assert (Hin : t ∈ ovfl_reset_slot <$> track (modify page)).
    { rewrite Hl. apply elem_of_app. right. left. }
    apply list_elem_of_fmap in Hin as (u & -> & Hu).
    rewrite ovfl_reset_slot_ref in Ht.
    rewrite Forall_forall in Hkinds.
    assert (Hdisc : type (ovfl_reset_slot u) = WT_PT_OVFL_DISCARD).
    { unfold ovfl_reset_slot.
      destruct (Hkinds u Hu Ht) as [Hk|Hk]; rewrite Hk; [reflexivity | exact Hk]. }
    unfold WT_ASSERT. rewrite bool_decide_eq_true_2 by exact Hdisc.
    eexists. split; [reflexivity|]. cbn. split; [|reflexivity].
    intros _. split; [exact Hnull|]. apply Exists_exists. exists u. split; assumption.
Qed.

(** ** More on sequences of calls *)

Lemma run_op_keeps_empty o st st' i t :
  run_op o st = Return st' ->
  track (modify (st_page st)) !! i = Some t ->
  type t = WT_PT_EMPTY ->
  track (modify (st_page st')) !! i = Some t.
Proof.
  intros Hrun Hlook Hty. destruct o as [type_ ref_ addr_ size_| |orig_data|];
    cbn [run_op] in Hrun.
  - injection Hrun as <-. cbn.
    destruct (rec_track_prefix (st_session st) (st_page st) type_ ref_ addr_ size_)
      as (added & -> & _).
    apply lookup_app_l_Some, Hlook.
  - injection Hrun as <-. cbn. rewrite list_lookup_fmap, Hlook. cbn. f_equal.
    unfold ovfl_reset_slot. rewrite Hty. reflexivity.
  - unfold __wt_rec_track_ovfl_active in Hrun.
    destruct (orig_data =? NULL); [injection Hrun as <-; exact Hlook|].
    destruct (ovfl_active_loop _ _ _ _) as [[[[l' r'] a'] s']|] eqn:Eloop;
      [|discriminate Hrun].
    injection Hrun as <-. cbn.
    eapply ovfl_active_loop_keeps; [exact Eloop | exact Hlook | congruence].
  - injection Hrun as <-. cbn. apply discard_track_keeps; [exact Hlook|].
    unfold to_discard. rewrite Hty. reflexivity.
Qed.

(** X16.  A slot of kind [WT_PT_EMPTY] is never used again.  Through any
    sequence of calls of the four functions that return, the slot stays at
    its place with its four fields as they were: [__wt_rec_track] appends a
    new slot rather than filling an empty one. *)
Theorem empty_slot_is_inert os : forall st st' i t,
  run_ops os st = Return st' ->
  track (modify (st_page st)) !! i = Some t ->
  type t = WT_PT_EMPTY ->
  track (modify (st_page st')) !! i = Some t.
Proof.
  induction os as [|o os IH]; intros st st' i t Hrun Hlook Hty.
  - injection Hrun as <-. exact Hlook.
  - cbn [run_ops] in Hrun.
    destruct (run_op o st) as [st1|] eqn:Eop; [|discriminate Hrun].
    eapply IH; [exact Hrun | | exact Hty].
    eapply run_op_keeps_empty; eassumption.
Qed.

Lemma run_op_keeps_free_calls o st st' :
  is_discard o = false ->
  run_op o st = Return st' ->
  free_calls (st_session st') = free_calls (st_session st).
Proof.
  intros Ho Hrun. destruct o as [type_ ref_ addr_ size_| |orig_data|];
    cbn [run_op] in Hrun; [| | |discriminate Ho].
  - injection Hrun as <-. cbn. unfold __wt_rec_track.
    destruct (existsb _ _); [reflexivity|].
    destruct (_ =? _); [|reflexivity].
    unfold __wt_realloc. destruct (realloc _ _ _) as [w ret].
    destruct (ret =? 0); reflexivity.
  - injection Hrun as <-. reflexivity.
  - unfold __wt_rec_track_ovfl_active in Hrun.
    destruct (orig_data =? NULL); [injection Hrun as <-; reflexivity|].
    destruct (ovfl_active_loop _ _ _ _) as [[[[l' r'] a'] s']|]; [|discriminate Hrun].
    injection Hrun as <-. reflexivity.
Qed.

(** X17.  Blocks are freed by [__wt_rec_discard_track] alone: a sequence of
    calls of [__wt_rec_track], [__wt_rec_track_ovfl_reset] and
    [__wt_rec_track_ovfl_active] makes no call of [__wt_block_free]. *)
Theorem only_discard_frees os : forall st st',
  Forall (fun o => is_discard o = false) os ->
  run_ops os st = Return st' ->
  free_calls (st_session st') = free_calls (st_session st).
Proof.
  induction os as [|o os IH]; intros st st' Hos Hrun.
  - injection Hrun as <-. reflexivity.
  - apply Forall_cons in Hos as [Ho Hos]. cbn [run_ops] in Hrun.
    destruct (run_op o st) as [st1|] eqn:Eop; [|discriminate Hrun].
    rewrite (IH _ _ Hos Hrun). eapply run_op_keeps_free_calls; eassumption.
Qed.

Lemma ovfl_active_loop_length orig_data l addrp sizep :
  forall l' ret a s,
    ovfl_active_loop orig_data l addrp sizep = Return (l', ret, a, s) ->
    length l' = length l.
Proof.
  induction l as [|u rest IH]; intros l' ret a s Hrun.
  - injection Hrun as <- _ _ _. reflexivity.
  - cbn [ovfl_active_loop] in Hrun. destruct (ref u =? orig_data); cbn [negb] in Hrun.
    + unfold WT_ASSERT in Hrun. destruct (bool_decide _); [|discriminate Hrun].
      injection Hrun as <- _ _ _. reflexivity.
    + destruct (ovfl_active_loop orig_data rest addrp sizep) as [[[[rest' r1] a1] s1]|];
        [|discriminate Hrun].
      injection Hrun as <- _ _ _. cbn. f_equal. eapply IH. reflexivity.
Qed.

Lemma run_op_length o st st' :
  run_op o st = Return st' ->
  (length (track (modify (st_page st))) <= length (track (modify (st_page st'))))%nat /\
  (length (track (modify (st_page st')))
   <= length (track (modify (st_page st))) + (if is_track o then 1 else 0))%nat.
Proof.
  intros Hrun. destruct o as [type_ ref_ addr_ size_| |orig_data|];
    cbn [run_op is_track] in Hrun |- *.
  - injection Hrun as <-. cbn.
    destruct (rec_track_prefix (st_session st) (st_page st) type_ ref_ addr_ size_)
      as (added & -> & Hlen).
    rewrite length_app. lia.
  - injection Hrun as <-. cbn. rewrite length_fmap. lia.
  - unfold __wt_rec_track_ovfl_active in Hrun.
    destruct (orig_data =? NULL); [injection Hrun as <-; cbn; lia|].
    destruct (ovfl_active_loop _ _ _ _) as [[[[l' r'] a'] s']|] eqn:Eloop;
      [|discriminate Hrun].
    injection Hrun as <-. cbn.
    apply ovfl_active_loop_length in Eloop.
    lia.
  - injection Hrun as <-. cbn.
    rewrite discard_track_unfold. cbn.
    destruct (discard_track_loop_char (st_session st) (track (modify (st_page st))))
      as (n & _ & -> & _).
    rewrite length_app, length_fmap, <- length_app, take_drop. lia.
Qed.

(** X18.  The list never gets shorter.  Through any sequence of calls that
    return, its length does not go down, and it goes up by at most the
    number of calls of [__wt_rec_track]: [__wt_rec_discard_track] resets
    slots, it does not remove them. *)
Theorem track_list_never_shrinks os : forall st st',
  run_ops os st = Return st' ->
  (length (track (modify (st_page st))) <= length (track (modify (st_page st'))))%nat /\
  (length (track (modify (st_page st')))
   <= length (track (modify (st_page st))) + length (List.filter is_track os))%nat.
Proof.
  induction os as [|o os IH]; intros st st' Hrun.
  - injection Hrun as <-. cbn. lia.
  - cbn [run_ops] in Hrun.
    destruct (run_op o st) as [st1|] eqn:Eop; [|discriminate Hrun].
    destruct (run_op_length _ _ _ Eop) as [Hlo Hhi].
    destruct (IH _ _ Hrun) as [Hlo' Hhi'].
    cbn [List.filter]. destruct (is_track o); cbn [length]; lia.
Qed.
End RecTrack.

(** ** The theorems at work *)

(** With a block manager that always succeeds, the page [one_of_each] is
    resolved with two calls, for the block and for the discarded overflow
    record. *)
Lemma discard_track_by_kind_witness :
  r_ret (__wt_rec_discard_track always_ok example_addr_invalid
           (fresh_session tt) one_of_each) = 0 /\
  track (modify (r_page (__wt_rec_discard_track always_ok example_addr_invalid
                           (fresh_session tt) one_of_each))) !! 1%nat
    = Some (mk_track WT_PT_EMPTY NULL example_addr_invalid 0) /\
  track (modify (r_page (__wt_rec_discard_track always_ok example_addr_invalid
                           (fresh_session tt) one_of_each))) !! 2%nat
    = Some (mk_track WT_PT_OVFL 7 100 10) /\
  free_calls (r_session (__wt_rec_discard_track always_ok example_addr_invalid
                           (fresh_session tt) one_of_each))
    = [mk_free_call 1 10 0; mk_free_call 2 20 0].
Proof.
  pose proof (discard_track_by_kind always_ok example_addr_invalid
                (fresh_session tt) one_of_each) as (Hkeep & Hfree & Hok).
  assert (Hret : r_ret (__wt_rec_discard_track always_ok example_addr_invalid
                          (fresh_session tt) one_of_each) = 0)
    by (apply Hok; reflexivity).
  destruct (Hfree Hret) as (Hreset & _ & Hcalls).
  split; [exact Hret|]. split; [|split].
  - apply (Hreset 1%nat (mk_track WT_PT_BLOCK NULL 1 10)); [reflexivity|].
    left. reflexivity.
  - apply (Hkeep 2%nat (mk_track WT_PT_OVFL 7 100 10)); [reflexivity|].
    right. reflexivity.
  - exact Hcalls.
Defined.

(** C2 as stated fails.  The block manager fails its second call, once.
    The first call of [__wt_rec_discard_track] on [three_blocks] returns the
    error 5 after freeing the first block; the second call returns 0.  The
    page has one slot at (2, 20), and [__wt_block_free] has been called twice
    for (2, 20): once by the call that failed, once by the retry. *)
Lemma discard_track_retry_calls_free_again :
  r_ret (__wt_rec_discard_track scripted example_addr_invalid
           (fresh_session fails_second_call) three_blocks) = 5 /\
  track (modify (r_page (__wt_rec_discard_track scripted example_addr_invalid
                           (fresh_session fails_second_call) three_blocks)))
    = [ mk_track WT_PT_EMPTY NULL example_addr_invalid 0;
        mk_track WT_PT_BLOCK NULL 2 20;
        mk_track WT_PT_BLOCK NULL 3 30 ] /\
  free_calls (discard_times scripted example_addr_invalid 2
                (fresh_session fails_second_call) three_blocks).1
    = [ mk_free_call 1 10 0; mk_free_call 2 20 5;
        mk_free_call 2 20 0; mk_free_call 3 30 0 ] /\
  length (List.filter (at_block 2 20) (track (modify three_blocks))) = 1%nat /\
  ~ (length (List.filter (frees_block 2 20)
               (free_calls (discard_times scripted example_addr_invalid 2
                              (fresh_session fails_second_call) three_blocks).1)) <= 1)%nat.
Proof.
  repeat split; try reflexivity. vm_compute. lia.
Qed.

Lemma discard_track_error_and_retry_witness :
  r_ret (__wt_rec_discard_track scripted example_addr_invalid
           (fresh_session fails_second_call) three_blocks) <> 0 /\
  exists pre t post,
    track (modify three_blocks) = pre ++ t :: post /\
    (type t = WT_PT_BLOCK \/ type t = WT_PT_OVFL_DISCARD) /\
    track (modify (r_page (__wt_rec_discard_track scripted example_addr_invalid
                             (fresh_session fails_second_call) three_blocks)))
      = (resolved_slot example_addr_invalid <$> pre) ++ t :: post.
Proof.
  assert (Hret : r_ret (__wt_rec_discard_track scripted example_addr_invalid
                          (fresh_session fails_second_call) three_blocks) <> 0)
    by (vm_compute; discriminate).
  split; [exact Hret|].
  destruct (discard_track_error_and_retry scripted example_addr_invalid
              (fresh_session fails_second_call) three_blocks Hret)
    as (pre & t & post & Heq & Hty & Hl & _).
  exists pre, t, post. repeat split; assumption.
Defined.

(** Registering the same block three times on an empty page, with an
    allocator that does not fail. *)
Lemma rec_track_idempotent_witness :
  (forall (w : unit) bytes_allocated bytes, (always_ok w bytes_allocated bytes).2 = 0) /\
  (count_occ WT_PAGE_TRACK_eq_dec (track (modify empty_page))
     (mk_track WT_PT_BLOCK NULL 1 10) <= 1)%nat /\
  (track_times always_ok example_sizeof_track 3 (fresh_session tt)
     empty_page WT_PT_BLOCK NULL 1 10).2 = [0; 0; 0] /\
  count_occ WT_PAGE_TRACK_eq_dec
    (track (modify (track_times always_ok example_sizeof_track 3
                      (fresh_session tt) empty_page WT_PT_BLOCK NULL 1 10).1.2))
    (mk_track WT_PT_BLOCK NULL 1 10) = 1%nat.
Proof.
  assert (Hok : forall (w : unit) bytes_allocated bytes,
                  (always_ok w bytes_allocated bytes).2 = 0) by reflexivity.
  assert (Hle : (count_occ WT_PAGE_TRACK_eq_dec (track (modify empty_page))
                   (mk_track WT_PT_BLOCK NULL 1 10) <= 1)%nat) by (cbn; lia).
  split; [exact Hok|]. split; [exact Hle|].
  apply (proj2 (proj2 (proj2 (rec_track_idempotent always_ok example_sizeof_track
                                (fresh_session tt) empty_page WT_PT_BLOCK NULL 1 10)))
           Hok 3%nat); [lia | exact Hle].
Defined.

Lemma ovfl_reset_flips_active_witness :
  track (modify (__wt_rec_track_ovfl_reset (fresh_session tt) one_of_each).2) !! 2%nat
  = Some (mk_track WT_PT_OVFL_DISCARD 7 100 10).
Proof.
  exact (proj2 (proj2 (proj2 (proj2
           (ovfl_reset_flips_active (fresh_session tt) one_of_each))))
           2%nat (mk_track WT_PT_OVFL 7 100 10) eq_refl).
Defined.

(** The example of the spec: the overflow record of the cell at 7, at
    (100, 10). *)
Lemma ovfl_reset_active_round_trip_witness :
  track (modify (__wt_rec_track_ovfl_reset (fresh_session tt) one_of_each).2) !! 2%nat
    = Some (mk_track WT_PT_OVFL_DISCARD 7 100 10) /\
  exists page2,
    __wt_rec_track_ovfl_active (fresh_session tt)
      (__wt_rec_track_ovfl_reset (fresh_session tt) one_of_each).2 7 0 0
    = Return (mk_ovfl_active_result (fresh_session tt) page2 1 100 10) /\
    track (modify page2) !! 2%nat = Some (mk_track WT_PT_OVFL 7 100 10) /\
    track (modify (r_page (__wt_rec_discard_track always_ok example_addr_invalid
                             (fresh_session tt) page2))) !! 2%nat
      = Some (mk_track WT_PT_OVFL 7 100 10) /\
    exists calls,
      free_calls (r_session (__wt_rec_discard_track always_ok example_addr_invalid
                               (fresh_session tt) page2))
        = free_calls (fresh_session tt) ++ calls /\
      Forall (fun c => frees_block 100 10 c = false) calls.
Proof.
  apply (ovfl_reset_active_round_trip always_ok example_addr_invalid
           (fresh_session tt) one_of_each 7 100 10
           [ mk_track WT_PT_EMPTY NULL example_addr_invalid 0;
             mk_track WT_PT_BLOCK NULL 1 10 ]
           [ mk_track WT_PT_OVFL_DISCARD 8 2 20 ] 0 0).
  - discriminate.
  - reflexivity.
  - repeat constructor; discriminate.
  - repeat constructor.
Defined.

(** The first slot for the cell at 7 is active. *)
Lemma ovfl_active_asserts_discarded_witness :
  __wt_rec_track_ovfl_active (fresh_session tt) active_twice 7 0 0 = AssertFailure.
Proof.
  apply (ovfl_active_asserts_discarded (fresh_session tt) active_twice 7
           [mk_track WT_PT_BLOCK NULL 1 10] (mk_track WT_PT_OVFL 7 100 10)
           [mk_track WT_PT_OVFL_DISCARD 7 200 10] 0 0).
  - discriminate.
  - reflexivity.
  - repeat constructor; discriminate.
  - reflexivity.
  - discriminate.
Defined.

(** No slot of [one_of_each] is for the cell at 9. *)
Lemma ovfl_active_not_found_witness :
  __wt_rec_track_ovfl_active (fresh_session tt) one_of_each 9 0 0
  = Return (mk_ovfl_active_result (fresh_session tt) one_of_each 0 0 0).
Proof.
  apply ovfl_active_not_found. right. repeat constructor; discriminate.
Defined.

(** The slot after the first one for the cell at 7 is active, and stays so. *)
Lemma ovfl_active_first_match_witness :
  __wt_rec_track_ovfl_active (fresh_session tt) discarded_then_active 7 0 0
  = Return (mk_ovfl_active_result (fresh_session tt)
              (mk_page (mk_modify [ mk_track WT_PT_OVFL 7 100 10;
                                    mk_track WT_PT_OVFL 7 200 10 ] 20))
              1 100 10).
Proof.
  apply (ovfl_active_first_match (fresh_session tt) discarded_then_active 7
           [] (mk_track WT_PT_OVFL_DISCARD 7 100 10)
           [mk_track WT_PT_OVFL 7 200 10] 0 0).
  - discriminate.
  - reflexivity.
  - constructor.
  - reflexivity.
Defined.

(** The block of [one_of_each] through a reset and two reactivations. *)
Lemma block_discarded_by_next_resolve_witness :
  run_ops always_ok always_ok example_addr_invalid example_sizeof_track
    [OvflReset; OvflActive 7; OvflActive 8]
    (mk_state (fresh_session tt) one_of_each)
    = Return (mk_state (fresh_session tt) both_active) /\
  track (modify both_active) !! 1%nat = Some (mk_track WT_PT_BLOCK NULL 1 10) /\
  track (modify (r_page (__wt_rec_discard_track always_ok example_addr_invalid
                           (fresh_session tt) both_active))) !! 1%nat
    = Some (mk_track WT_PT_EMPTY NULL example_addr_invalid 0) /\
  exists calls,
    free_calls (r_session (__wt_rec_discard_track always_ok example_addr_invalid
                             (fresh_session tt) both_active))
      = free_calls (fresh_session tt) ++ calls /\
    mk_free_call 1 10 0 ∈ calls.
Proof.
  assert (Hrun : run_ops always_ok always_ok example_addr_invalid example_sizeof_track
                   [OvflReset; OvflActive 7; OvflActive 8]
                   (mk_state (fresh_session tt) one_of_each)
                 = Return (mk_state (fresh_session tt) both_active)) by reflexivity.
  destruct (block_discarded_by_next_resolve always_ok always_ok
              example_addr_invalid example_sizeof_track
              [OvflReset; OvflActive 7; OvflActive 8]
              (mk_state (fresh_session tt) one_of_each)
              (mk_state (fresh_session tt) both_active)
              1%nat (mk_track WT_PT_BLOCK NULL 1 10))
    as (Hkept & Hfreed & _ & Hok).
  - repeat constructor.
  - exact Hrun.
  - reflexivity.
  - reflexivity.
  - split; [exact Hrun|]. split; [exact Hkept|]. apply Hfreed, Hok. reflexivity.
Defined.

Lemma not_I1_twice (t : WT_PAGE_TRACK) (page : WT_PAGE) :
  track (modify page) = [t; t] -> ~ I1 page.
Proof.
  unfold I1. intros -> Hnd. apply NoDup_cons in Hnd as [Hnin _].
  apply Hnin. left.
Qed.

(** C7 as stated fails.  From an empty page, two blocks are registered and
    the list is resolved: both slots are now ([WT_PT_EMPTY], [NULL],
    [WT_ADDR_INVALID], 0), and I1 does not hold in this state.  An active and
    a discarded record of the same cell at the same place are two tuples
    until [__wt_rec_track_ovfl_reset] makes them one; a discarded and an
    active one are two tuples until [__wt_rec_track_ovfl_active] makes them
    one. *)
Lemma I1_not_kept_by_resolve_reset_active :
  ~ (forall st : state unit,
       reachable always_ok always_ok example_addr_invalid example_sizeof_track st ->
       I1 (st_page st)) /\
  (exists st,
     run_ops always_ok always_ok example_addr_invalid example_sizeof_track
       two_blocks_then_discard (mk_state (fresh_session tt) empty_page) = Return st /\
     track (modify (st_page st))
       = [ mk_track WT_PT_EMPTY NULL example_addr_invalid 0;
           mk_track WT_PT_EMPTY NULL example_addr_invalid 0 ] /\
     ~ I1 (st_page st)) /\
  (exists st,
     run_ops always_ok always_ok example_addr_invalid example_sizeof_track
       active_and_discarded_then_reset (mk_state (fresh_session tt) empty_page)
       = Return st /\
     track (modify (st_page st))
       = [ mk_track WT_PT_OVFL_DISCARD 7 100 10;
           mk_track WT_PT_OVFL_DISCARD 7 100 10 ] /\
     ~ I1 (st_page st)) /\
  (exists st,
     run_ops always_ok always_ok example_addr_invalid example_sizeof_track
       discarded_and_active_then_activate (mk_state (fresh_session tt) empty_page)
       = Return st /\
     track (modify (st_page st))
       = [ mk_track WT_PT_OVFL 7 100 10; mk_track WT_PT_OVFL 7 100 10 ] /\
     ~ I1 (st_page st)).
Proof.
  split; [|split; [|split]].
  - intros Hall.
    assert (Hreach : reachable always_ok always_ok example_addr_invalid
                       example_sizeof_track
                       (mk_state
                          (mk_session tt [mk_free_call 1 10 0; mk_free_call 2 20 0])
                          (mk_page (mk_modify
                             [ mk_track WT_PT_EMPTY NULL example_addr_invalid 0;
                               mk_track WT_PT_EMPTY NULL example_addr_invalid 0 ] 20)))).
    { exists (fresh_session tt), 0, two_blocks_then_discard. reflexivity. }
    apply Hall in Hreach. revert Hreach. eapply not_I1_twice. reflexivity.
  - eexists. split; [reflexivity|]. split; [reflexivity|].
    eapply not_I1_twice. reflexivity.
  - eexists. split; [reflexivity|]. split; [reflexivity|].
    eapply not_I1_twice. reflexivity.
  - eexists. split; [reflexivity|]. split; [reflexivity|].
    eapply not_I1_twice. reflexivity.
Qed.

(** A fourth block is registered on [three_blocks]. *)
Lemma I1_kept_by_track_witness :
  I1 three_blocks /\
  I1 (r_page (__wt_rec_track always_ok example_sizeof_track (fresh_session tt)
                three_blocks WT_PT_BLOCK NULL 4 40)).
Proof.
  assert (HI : I1 three_blocks).
  { unfold I1. cbn. repeat (apply NoDup_cons; split); try apply NoDup_nil_2.
    all: intros Hin; repeat (apply elem_of_cons in Hin as [Hin|Hin]; [discriminate Hin|]);
      inversion Hin. }
  split; [exact HI|].
  exact (proj1 (I1_kept_by_track always_ok always_ok example_addr_invalid
                  example_sizeof_track (fresh_session tt) three_blocks)
           WT_PT_BLOCK NULL 4 40 HI).
Defined.

(** ** Allocation, at work *)

(** The first registration on [empty_page] has to allocate, and the
    allocator fails. *)
Lemma rec_track_error_is_allocation_witness :
  r_ret (__wt_rec_track scripted example_sizeof_track
           (fresh_session fails_first_call) empty_page WT_PT_BLOCK NULL 1 10) <> 0 /\
  r_ret (__wt_rec_track scripted example_sizeof_track
           (fresh_session fails_first_call) empty_page WT_PT_BLOCK NULL 1 10) = 12 /\
  r_page (__wt_rec_track scripted example_sizeof_track
            (fresh_session fails_first_call) empty_page WT_PT_BLOCK NULL 1 10)
    = empty_page.
Proof.
  assert (Hret : r_ret (__wt_rec_track scripted example_sizeof_track
                          (fresh_session fails_first_call) empty_page
                          WT_PT_BLOCK NULL 1 10) <> 0) by (vm_compute; discriminate).
  destruct (rec_track_error_is_allocation scripted example_sizeof_track
              (fresh_session fails_first_call) empty_page WT_PT_BLOCK NULL 1 10 Hret)
    as (_ & _ & Hval & Hpage & _).
  split; [exact Hret|]. split; [rewrite Hval; reflexivity | exact Hpage].
Defined.

Lemma rec_track_within_allocation_witness :
  track_next (modify (r_page (__wt_rec_track always_ok example_sizeof_track
                                (fresh_session tt) empty_page WT_PT_BLOCK NULL 1 10)))
  <= track_entries (modify (r_page (__wt_rec_track always_ok example_sizeof_track
                                (fresh_session tt) empty_page WT_PT_BLOCK NULL 1 10))).
Proof.
  apply (rec_track_within_allocation always_ok example_sizeof_track
           (fresh_session tt) empty_page WT_PT_BLOCK NULL 1 10).
  - vm_compute. discriminate.
  - reflexivity.
Defined.

(** [three_blocks] has 17 allocated slots left. *)
Lemma rec_track_no_allocation_witness :
  r_ret (__wt_rec_track scripted example_sizeof_track
           (fresh_session fails_first_call) three_blocks WT_PT_BLOCK NULL 4 40) = 0 /\
  r_session (__wt_rec_track scripted example_sizeof_track
               (fresh_session fails_first_call) three_blocks WT_PT_BLOCK NULL 4 40)
    = fresh_session fails_first_call.
Proof.
  apply (rec_track_no_allocation scripted example_sizeof_track
           (fresh_session fails_first_call) three_blocks WT_PT_BLOCK NULL 4 40).
  right. vm_compute. discriminate.
Defined.

(** Twenty-one blocks on a page that holds two resolved slots, alike, with
    twenty slots allocated: the array is grown once. *)
Lemma track_all_registers_witness :
  track (modify (track_all always_ok example_sizeof_track twenty_one_blocks
                   (st_session two_blocks_discarded)
                   (st_page two_blocks_discarded)).1.2)
    = track (modify (st_page two_blocks_discarded)) ++ twenty_one_blocks /\
  Forall (fun ret => ret = 0)
    (track_all always_ok example_sizeof_track twenty_one_blocks
       (st_session two_blocks_discarded) (st_page two_blocks_discarded)).2.
Proof.
  apply (track_all_registers always_ok example_sizeof_track twenty_one_blocks
           (st_session two_blocks_discarded) (st_page two_blocks_discarded)).
  - reflexivity.
  - apply (bool_decide_unpack _). vm_compute. exact I.
  - apply (bool_decide_unpack _). vm_compute. exact I.
Defined.

(** ** Resolving, at work *)

Lemma discard_track_again_is_noop_witness :
  __wt_rec_discard_track always_ok example_addr_invalid (fresh_session tt)
    (r_page (__wt_rec_discard_track always_ok example_addr_invalid
               (fresh_session tt) one_of_each))
  = mk_result (fresh_session tt)
      (r_page (__wt_rec_discard_track always_ok example_addr_invalid
                 (fresh_session tt) one_of_each)) 0.
Proof.
  apply (discard_track_again_is_noop always_ok example_addr_invalid
           (fresh_session tt) one_of_each (fresh_session tt)).
  reflexivity.
Defined.

Lemma discard_track_frees_tracked_only_witness :
  exists calls,
    free_calls (r_session (__wt_rec_discard_track scripted example_addr_invalid
                             (fresh_session fails_second_call) three_blocks))
      = free_calls (fresh_session fails_second_call) ++ calls /\
    (length calls <= length (List.filter to_discard (track (modify three_blocks))))%nat.
Proof.
  destruct (discard_track_frees_tracked_only scripted example_addr_invalid
              (fresh_session fails_second_call) three_blocks)
    as (calls & Hc & Hlen & _).
  exists calls. split; [exact Hc | exact Hlen].
Defined.

(** The first block of [three_blocks] is registered again once the page is
    resolved. *)
Lemma rec_track_after_discard_appends_witness :
  track (modify (r_page
    (__wt_rec_track always_ok example_sizeof_track (fresh_session tt)
       (r_page (__wt_rec_discard_track always_ok example_addr_invalid
                  (fresh_session tt) three_blocks))
       WT_PT_BLOCK NULL 1 10)))
  = track (modify (r_page (__wt_rec_discard_track always_ok example_addr_invalid
                             (fresh_session tt) three_blocks)))
    ++ [mk_track WT_PT_BLOCK NULL 1 10].
Proof.
  apply (rec_track_after_discard_appends always_ok always_ok example_addr_invalid
           example_sizeof_track (fresh_session tt) three_blocks (fresh_session tt)
           WT_PT_BLOCK NULL 1 10).
  - reflexivity.
  - left. reflexivity.
  - reflexivity.
Defined.

Lemma discard_track_all_fail_witness :
  r_page (__wt_rec_discard_track always_fails example_addr_invalid
            (fresh_session tt) one_of_each) = one_of_each.
Proof.
  apply (discard_track_all_fail always_fails example_addr_invalid
           (fresh_session tt) one_of_each).
  intros w addr_ size_. cbn. discriminate.
Defined.

Lemma reset_then_discard_sweeps_all_witness :
  Forall (fun t => type t = WT_PT_EMPTY)
    (track (modify (r_page
       (__wt_rec_discard_track always_ok example_addr_invalid
          (__wt_rec_track_ovfl_reset (fresh_session tt) one_of_each).1
          (__wt_rec_track_ovfl_reset (fresh_session tt) one_of_each).2)))) /\
  free_calls (r_session
     (__wt_rec_discard_track always_ok example_addr_invalid
        (__wt_rec_track_ovfl_reset (fresh_session tt) one_of_each).1
        (__wt_rec_track_ovfl_reset (fresh_session tt) one_of_each).2))
  = free_calls (fresh_session tt)
    ++ ((fun t => mk_free_call (addr t) (size t) 0)
          <$> List.filter non_empty (track (modify one_of_each))).
Proof.
  apply (reset_then_discard_sweeps_all always_ok example_addr_invalid
           (fresh_session tt) one_of_each).
  reflexivity.
Defined.

(** ** Reactivating, at work *)

Lemma ovfl_active_returns_witness :
  oa_session (mk_ovfl_active_result (fresh_session tt)
                (mk_page (mk_modify [ mk_track WT_PT_OVFL 7 100 10;
                                      mk_track WT_PT_OVFL 7 200 10 ] 20))
                1 100 10)
  = fresh_session tt.
Proof.
  apply (ovfl_active_returns (fresh_session tt) discarded_then_active 7 0 0).
  reflexivity.
Defined.

Lemma ovfl_active_twice_asserts_witness :
  __wt_rec_track_ovfl_active (fresh_session tt)
    (mk_page (mk_modify [ mk_track WT_PT_OVFL 7 100 10;
                          mk_track WT_PT_OVFL 7 200 10 ] 20)) 7 0 0
  = AssertFailure.
Proof.
  apply (ovfl_active_twice_asserts (fresh_session tt) discarded_then_active 7 0 0
           (mk_ovfl_active_result (fresh_session tt)
              (mk_page (mk_modify [ mk_track WT_PT_OVFL 7 100 10;
                                    mk_track WT_PT_OVFL 7 200 10 ] 20))
              1 100 10)
           (fresh_session tt) 0 0).
  - reflexivity.
  - reflexivity.
Defined.

Lemma ovfl_active_after_reset_returns_witness :
  exists r,
    __wt_rec_track_ovfl_active (__wt_rec_track_ovfl_reset (fresh_session tt) one_of_each).1
      (__wt_rec_track_ovfl_reset (fresh_session tt) one_of_each).2 7 0 0
    = Return r /\
    (oa_ret r = 1 <->
     7 <> NULL /\ Exists (fun t => ref t = 7) (track (modify one_of_each))).
Proof.
  apply (ovfl_active_after_reset_returns (fresh_session tt) one_of_each 7 0 0).
  repeat constructor; cbn; intros; (discriminate || auto).
Defined.

(** ** Sequences of calls, at work *)

Lemma empty_slot_is_inert_witness :
  track (modify (st_page two_blocks_discarded)) !! 0%nat
  = Some (mk_track WT_PT_EMPTY NULL example_addr_invalid 0).
Proof.
  apply (empty_slot_is_inert always_ok always_ok example_addr_invalid
           example_sizeof_track
           [Track WT_PT_BLOCK NULL 2 20; DiscardTrack]
           (mk_state (mk_session tt [mk_free_call 1 10 0])
              (mk_page (mk_modify
                 [mk_track WT_PT_EMPTY NULL example_addr_invalid 0] 20)))
           two_blocks_discarded 0%nat).
  - reflexivity.
  - reflexivity.
  - reflexivity.
Defined.

Lemma only_discard_frees_witness :
  free_calls (st_session (mk_state (fresh_session tt) both_active))
  = free_calls (st_session (mk_state (fresh_session tt) one_of_each)).
Proof.
  apply (only_discard_frees always_ok always_ok example_addr_invalid
           example_sizeof_track [OvflReset; OvflActive 7; OvflActive 8]).
  - repeat constructor.
  - reflexivity.
Defined.

Lemma track_list_never_shrinks_witness :
  (length (track (modify (st_page (mk_state (fresh_session tt) empty_page))))
   <= length (track (modify (st_page two_blocks_discarded))))%nat /\
  (length (track (modify (st_page two_blocks_discarded)))
   <= length (track (modify (st_page (mk_state (fresh_session tt) empty_page))))
      + length (List.filter is_track two_blocks_then_discard))%nat.
Proof.
  apply (track_list_never_shrinks always_ok always_ok example_addr_invalid
           example_sizeof_track two_blocks_then_discard).
  reflexivity.
Defined.
